(** * bajor: the remote-catalog batch prediction pipeline

    A shallow embedding of [azure/batch/scripts/predict_on_catalog.py]:
    the Dirichlet statistics functions, the retrying fetch, the dataset
    access and the [predict] orchestrator, with the properties stated
    about them.

    Numbers.  The entries of a predictions array are float64 in the
    program.  The statistics functions are embedded twice.  In the
    first embedding the entries are exact rationals ([Q]): rounding,
    overflow and underflow are not modelled, and the one operation that
    leaves the finite numbers, the division, has its numpy outcome on a
    zero divisor (an infinity or a NaN, no exception).  It carries the
    properties on indices, slices and exceptions, and those on values
    that are stated for exact arithmetic.  In the second, [Float64], the
    entries are IEEE 754 binary64 numbers and the operations are those
    of the processor: it shows what rounding does to a property. *)

From Stdlib Require Import String Ascii.
From Stdlib Require Import List ZArith QArith Qfield Lqa Lia Bool.
From Stdlib Require Import PrimFloat.
Import ListNotations.

Local Open Scope Z_scope.

(** ** Errors *)

(** The Python exceptions the modelled code can raise. *)
Inductive exception : Type :=
| IndexError
| KeyError
| RuntimeError
| ValueError
| InvalidSchema
| MissingSchema
| InvalidURL
| InvalidHeader
| ConnectionError
| RetryError
| HTTPError (status : nat)
| DecodeError.

Inductive result (A : Type) : Type :=
| Ok (a : A)
| Raise (e : exception).
Arguments Ok {A} a.
Arguments Raise {A} e.

Definition bind {A B : Type} (r : result A) (k : A -> result B) : result B :=
  match r with
  | Ok a => k a
  | Raise e => Raise e
  end.

Notation "x <- r ;; k" := (bind r (fun x => k))
  (at level 61, r at next level, right associativity).

(** ** numpy arrays *)

Module Np.

(** A float64 result: a finite number, or what a division by zero
    leaves. *)
Inductive float : Type :=
| Finite (q : Q)
| PosInf
| NegInf
| NaN.

(** A two-dimensional array.  [shape1] is the size of axis 1, kept
    apart from the rows because an array can have no row and still
    have columns; [rows] holds axis 0. *)
Record ndarray : Type := mk_ndarray {
  shape1 : nat;
  rows : list (list Q)
}.

Definition shape0 (a : ndarray) : nat := length (rows a).

(** [a] really is a [(n_galaxies, n_answers)] array. *)
Definition has_shape (a : ndarray) (n_galaxies n_answers : nat) : Prop :=
  shape0 a = n_galaxies /\
  shape1 a = n_answers /\
  Forall (fun r => length r = n_answers) (rows a).

(** Python's list indexing [l[i]]: a negative index counts from the
    end, an index out of range raises. *)
Definition list_getitem {A : Type} (l : list A) (i : Z) : result A :=
  let n := Z.of_nat (length l) in
  let j := if i <? 0 then i + n else i in
  if (j <? 0) || (n <=? j) then Raise IndexError
  else match nth_error l (Z.to_nat j) with
       | Some x => Ok x
       | None => Raise IndexError
       end.

(** The bound of a slice [start:stop] on an axis of length [n]: a
    negative bound counts from the end, and the result is clipped
    to [0, n]. *)
Definition adjust_index (n : nat) (i : Z) : nat :=
  let len := Z.of_nat n in
  let j := if i <? 0 then i + len else i in
  if j <? 0 then 0%nat
  else if len <? j then n
  else Z.to_nat j.

(** [row[start:stop]]. *)
Definition slice {A : Type} (row : list A) (start stop : Z) : list A :=
  let n := length row in
  let lo := adjust_index n start in
  let hi := adjust_index n stop in
  firstn (hi - lo) (skipn lo row).

(** [row.sum()], from 0. *)
Definition sum (row : list Q) : Q := fold_right Qplus 0%Q row.

(** The column index of [a[:, i]], checked against axis 1. *)
Definition column_index (a : ndarray) (i : Z) : result nat :=
  let n := Z.of_nat (shape1 a) in
  let j := if i <? 0 then i + n else i in
  if (j <? 0) || (n <=? j) then Raise IndexError
  else Ok (Z.to_nat j).

(** [a[:, i]]. *)
Definition column (a : ndarray) (i : Z) : result (list Q) :=
  j <- column_index a i ;;
  Ok (map (fun r => nth j r 0%Q) (rows a)).

(** [a[:, start:stop].sum(axis=1)]. *)
Definition slice_sum_axis1 (a : ndarray) (start stop : Z) : list Q :=
  map (fun r => sum (slice r start stop)) (rows a).

(** [x / y] on float64: a zero divisor gives an infinity of the sign
    of [x], or NaN when [x] is zero too. *)
Definition true_divide (x y : Q) : float :=
  if Qeq_bool y 0 then
    match (x ?= 0)%Q with
    | Gt => PosInf
    | Lt => NegInf
    | Eq => NaN
    end
  else Finite (x / y).

(** Entrywise operation on two vectors of one length. *)
Fixpoint zip_with {A B C : Type} (f : A -> B -> C)
         (xs : list A) (ys : list B) : list C :=
  match xs, ys with
  | x :: xs', y :: ys' => f x y :: zip_with f xs' ys'
  | _, _ => []
  end.

End Np.

(** ** The Dirichlet statistics functions *)

(** [predictions_to_expectation_of_answer], lines 165-184. *)
Definition predictions_to_expectation_of_answer
    (predictions : Np.ndarray) (question_indices : list Z) (answer_index : Z)
    : result (list Np.float) :=
  q0 <- Np.list_getitem question_indices 0 ;;
  q1 <- Np.list_getitem question_indices 1 ;;
  let alpha_all := Np.slice_sum_axis1 predictions q0 (q1 + 1) in
  alpha_i <- Np.column predictions answer_index ;;
  Ok (Np.zip_with Np.true_divide alpha_i alpha_all).

(** [predictions_to_variance_of_answer], lines 187-204. *)
Definition predictions_to_variance_of_answer
    (predictions : Np.ndarray) (question_indices : list Z) (answer_index : Z)
    : result (list Np.float) :=
  q0 <- Np.list_getitem question_indices 0 ;;
  q1 <- Np.list_getitem question_indices 1 ;;
  let alpha_all := Np.slice_sum_axis1 predictions q0 (q1 + 1) in
  alpha_i <- Np.column predictions answer_index ;;
  Ok (Np.zip_with
        (fun ai aall =>
           Np.true_divide (ai * (aall - ai))%Q ((aall ^ 2) * (aall + 1))%Q)
        alpha_i alpha_all).

(** The statistics as the description words them. *)
Module Stated.

(** The entry of [row] in column [j]. *)
Definition entry (row : list Q) (j : nat) : Q := nth j row 0%Q.

(** The sum of the columns [start_index .. end_index] of a row, both
    ends included. *)
Definition alpha_total (row : list Q) (start_index end_index : nat) : Q :=
  Np.sum (map (entry row) (seq start_index (S end_index - start_index))).

Definition alpha_answer (row : list Q) (answer_index : nat) : Q :=
  entry row answer_index.

End Stated.

(** ** The statistics functions on binary64 *)

(** The two functions with the entries as the program holds them,
    binary64 numbers, and the operations numpy applies to them: IEEE 754
    addition, subtraction, multiplication and division, which return an
    infinity or a NaN where the program does (numpy warns and does not
    raise). *)
Module Float64.

Record ndarray : Type := mk_ndarray {
  shape1 : nat;
  rows : list (list PrimFloat.float)
}.

(** [row.sum()]: the entries added from left to right, from 0.  numpy
    adds in this order the entries of a slice of fewer than 8 columns;
    it can add a wider one in blocks, which is not modelled. *)
Definition sum (row : list PrimFloat.float) : PrimFloat.float :=
  fold_left PrimFloat.add row 0%float.

(** [a[:, i]]. *)
Definition column (a : ndarray) (i : Z) : result (list PrimFloat.float) :=
  let n := Z.of_nat (shape1 a) in
  let j := if i <? 0 then i + n else i in
  if (j <? 0) || (n <=? j) then Raise IndexError
  else Ok (map (fun r => nth (Z.to_nat j) r 0%float) (rows a)).

(** [a[:, start:stop].sum(axis=1)]. *)
Definition slice_sum_axis1 (a : ndarray) (start stop : Z)
  : list PrimFloat.float :=
  map (fun r => sum (Np.slice r start stop)) (rows a).

(** [predictions_to_expectation_of_answer], lines 165-184. *)
Definition predictions_to_expectation_of_answer
    (predictions : ndarray) (question_indices : list Z) (answer_index : Z)
    : result (list PrimFloat.float) :=
  q0 <- Np.list_getitem question_indices 0 ;;
  q1 <- Np.list_getitem question_indices 1 ;;
  let alpha_all := slice_sum_axis1 predictions q0 (q1 + 1) in
  alpha_i <- column predictions answer_index ;;
  Ok (Np.zip_with PrimFloat.div alpha_i alpha_all).

(** [predictions_to_variance_of_answer], lines 187-204.  [x ** 2] on
    a float64 array is the product of [x] by itself. *)
Definition predictions_to_variance_of_answer
    (predictions : ndarray) (question_indices : list Z) (answer_index : Z)
    : result (list PrimFloat.float) :=
  q0 <- Np.list_getitem question_indices 0 ;;
  q1 <- Np.list_getitem question_indices 1 ;;
  let alpha_all := slice_sum_axis1 predictions q0 (q1 + 1) in
  alpha_i <- column predictions answer_index ;;
  Ok (Np.zip_with
        (fun ai aall =>
           (ai * (aall - ai) / (aall * aall * (aall + 1)))%float)
        alpha_i alpha_all).

(** The scenario of the script's own tests: [[8, 2, 1.5], [4, 5, 1.5]]. *)
Definition test_predictions : ndarray :=
  mk_ndarray 3 [[8; 2; 1.5]; [4; 5; 1.5]]%float.


End Float64.

(** ** The retrying fetch *)

Local Open Scope string_scope.
Local Open Scope Z_scope.

Module Requests.

(** The body of a response as a stream that has not been read. *)
Record stream : Type := mk_stream { pending : list Byte.byte }.

(** [raw.read()]: all the bytes of the stream. *)
Definition raw_read (s : stream) : list Byte.byte := pending s.

(** The Retry-After header as urllib3 reads it: a number of seconds to
    wait, given as such or counted from a date, or a value that it
    cannot parse. *)
Inductive retry_after_header : Type :=
| Seconds (s : Q)
| Unparsable.

(** A response: its status, the headers that the script and the
    libraries under it look at, and its body.  [content_type] is
    [None] when the header is absent, [retry_after] when it is absent
    or empty, [location] when it is absent. *)
Record response : Type := mk_response {
  status_code : nat;
  content_type : option string;
  retry_after : option retry_after_header;
  location : option string;
  raw : stream
}.

(** [bool(response.headers.get('Retry-After'))]. *)
Definition has_retry_after (resp : response) : bool :=
  match retry_after resp with
  | Some _ => true
  | None => false
  end.

Definition REDIRECT_STATI : list nat := [301; 302; 303; 307; 308]%nat.

(** [response.is_redirect]: a Location header and a status of
    redirection. *)
Definition is_redirect (resp : response) : bool :=
  match location resp with
  | Some _ => existsb (Nat.eqb (status_code resp)) REDIRECT_STATI
  | None => false
  end.

(** What one attempt to send a request comes to. *)
Inductive attempt : Type :=
| ConnectFailure
| ReadFailure
| Responded (r : response).

(** The network: what attempt number [n] (from 0) at a URL comes to. *)
Definition network : Type := string -> nat -> attempt.

(** urllib3's [Retry], with the fields the script sets and the number
    of entries of [history].  urllib3 is not part of the repository:
    its counters and its sending loop are modelled from the library,
    for a GET, with its defaults for what the script does not set (no
    [status_forcelist], [respect_retry_after_header] and
    [raise_on_status] true, no counter for [redirect], [status] and
    [other]). *)
Record Retry : Type := mk_Retry {
  total : Z;
  read : Z;
  connect : Z;
  backoff_factor : Q;
  history : nat
}.

Inductive failure : Type := ConnectError | ReadError | StatusError.

(** [Retry.increment]: one less in total and, for an error, one less of
    its kind; one more entry in the history. *)
Definition increment (r : Retry) (f : failure) : Retry :=
  match f with
  | ConnectError =>
      mk_Retry (total r - 1) (read r) (connect r - 1)
               (backoff_factor r) (S (history r))
  | ReadError =>
      mk_Retry (total r - 1) (read r - 1) (connect r)
               (backoff_factor r) (S (history r))
  | StatusError =>
      mk_Retry (total r - 1) (read r) (connect r)
               (backoff_factor r) (S (history r))
  end.

(** [Retry.is_exhausted]: one of the counters is below zero. *)
Definition is_exhausted (r : Retry) : bool :=
  Z.min (total r) (Z.min (read r) (connect r)) <? 0.

Definition RETRY_AFTER_STATUS_CODES : list nat := [413; 429; 503]%nat.

(** [Retry.is_retry], without a [status_forcelist]: a response is sent
    again when, [total] not being zero, it is a 413, 429 or 503 that
    carries a Retry-After header. *)
Definition is_retry (r : Retry) (status : nat) (has_retry_after : bool)
  : bool :=
  negb (total r =? 0) && has_retry_after
  && existsb (Nat.eqb status) RETRY_AFTER_STATUS_CODES.

Definition DEFAULT_BACKOFF_MAX : Q := 120.

(** [Retry.get_backoff_time]: nothing after the first of a run of
    retries, then the factor doubled at each retry, up to the
    maximum. *)
Definition get_backoff_time (r : Retry) : Q :=
  if (history r <=? 1)%nat then 0
  else
    let backoff_value :=
      (backoff_factor r * inject_Z (2 ^ Z.of_nat (history r - 1)))%Q in
    if Qle_bool DEFAULT_BACKOFF_MAX backoff_value then DEFAULT_BACKOFF_MAX
    else backoff_value.

(** The seconds [Retry.sleep] waits: what a Retry-After header asks
    for when it is more than zero, the backoff time otherwise (no wait
    when that is not positive).  A Retry-After header that cannot be
    parsed raises. *)
Definition sleep (r : Retry) (resp : option response) : result Q :=
  let backoff :=
    let b := get_backoff_time r in
    if Qle_bool b 0 then 0%Q else b in
  match resp with
  | Some resp =>
      match retry_after resp with
      | Some Unparsable => Raise InvalidHeader
      | Some (Seconds s) =>
          if Qle_bool s 0 then Ok backoff else Ok s
      | None => Ok backoff
      end
  | None => Ok backoff
  end.

(** The exception of the adapter when the budget is used up. *)
Definition exhausted (f : failure) : exception :=
  match f with
  | StatusError => RetryError
  | _ => ConnectionError
  end.

Record HTTPAdapter : Type := mk_HTTPAdapter { max_retries : Retry }.

(** The sending loop of the adapter: attempt number [n] is made with
    the budget [r].  A failure of the connection or of the read, and a
    response that [is_retry] selects, take from the budget; unless it is
    exhausted, the loop waits and the request is sent again.  Returns
    the outcome, the number of attempts made so far, and the seconds
    waited before each retry.  [fuel] bounds the recursion; [send]
    gives enough of it. *)
Fixpoint urlopen (fuel : nat) (attempts : nat -> attempt)
         (n : nat) (r : Retry) (slept : list Q)
  : result response * nat * list Q :=
  let again (f : failure) (resp : option response) :=
    let r' := increment r f in
    if is_exhausted r' then (Raise (exhausted f), S n, slept)
    else match sleep r' resp with
         | Raise e => (Raise e, S n, slept)
         | Ok seconds =>
             match fuel with
             | O => (Raise (exhausted f), S n, slept)
             | S fuel' =>
                 urlopen fuel' attempts (S n) r' (slept ++ [seconds])%list
             end
         end in
  match attempts n with
  | ConnectFailure => again ConnectError None
  | ReadFailure => again ReadError None
  | Responded resp =>
      if is_retry r (status_code resp) (has_retry_after resp)
      then again StatusError (Some resp)
      else (Ok resp, S n, slept)
  end.

(** [HTTPAdapter.send]. *)
Definition send (a : HTTPAdapter) (attempts : nat -> attempt)
  : result response * nat * list Q :=
  urlopen (Z.to_nat (total (max_retries a))) attempts 0 (max_retries a) [].

(** A session: the adapters mounted, by URL prefix. *)
Record Session : Type := mk_Session {
  adapters : list (string * HTTPAdapter)
}.

(** The adapter of a new session sends once: no retry. *)
Definition default_adapter : HTTPAdapter :=
  mk_HTTPAdapter (mk_Retry 0 0 0 0 0).

(** [adapters[prefix] = adapter] on the ordered dictionary: the value
    of a key that is there is replaced in place, a new key goes last. *)
Fixpoint setitem (l : list (string * HTTPAdapter)) (prefix : string)
         (a : HTTPAdapter) : list (string * HTTPAdapter) :=
  match l with
  | [] => [(prefix, a)]
  | (k, v) :: l' =>
      if String.eqb k prefix then (k, a) :: l'
      else (k, v) :: setitem l' prefix a
  end.

(** [session.mount(prefix, adapter)]: the adapter is registered for the
    prefix and the shorter prefixes are moved behind. *)
Definition mount (s : Session) (prefix : string) (a : HTTPAdapter) : Session :=
  let registered := setitem (adapters s) prefix a in
  let shorter (ka : string * HTTPAdapter) :=
    (String.length (fst ka) <? String.length prefix)%nat in
  mk_Session (filter (fun ka => negb (shorter ka)) registered
              ++ filter shorter registered)%list.

(** [requests.Session()]: its two adapters, mounted for 'https://' and
    then for 'http://'. *)
Definition new_session : Session :=
  mount (mount (mk_Session []) "https://" default_adapter)
        "http://" default_adapter.

Definition lower_ascii (c : ascii) : ascii :=
  let n := nat_of_ascii c in
  if (65 <=? n)%nat && (n <=? 90)%nat then ascii_of_nat (n + 32) else c.

(** [str.lower()] on the ASCII letters. *)
Fixpoint lower (s : string) : string :=
  match s with
  | EmptyString => EmptyString
  | String c s' => String (lower_ascii c) (lower s')
  end.

(** [session.get_adapter(url)]: the first adapter whose prefix starts
    the URL, both in lower case. *)
Fixpoint find_adapter (l : list (string * HTTPAdapter)) (url : string)
  : result HTTPAdapter :=
  match l with
  | [] => Raise InvalidSchema
  | (p, a) :: l' =>
      if String.prefix (lower p) (lower url) then Ok a
      else find_adapter l' url
  end.

Definition get_adapter (s : Session) (url : string) : result HTTPAdapter :=
  find_adapter (adapters s) url.

(** [session.get(url, stream=True)], with the number of attempts made
    and the seconds waited before each retry.

    [prepare_url] is the preparation of the URL by requests
    ([PreparedRequest.prepare_url]: the URL as it will be sent, or the
    exception raised for one that cannot be, such as MissingSchema or
    InvalidURL); it is not part of the repository and is a parameter.
    The adapter is looked up for the prepared URL, and the request is
    sent to it.

    A session follows a response that is a redirect ([is_redirect]) to
    its Location.  That is not modelled: the response is returned as it
    is, and the properties below are stated for responses that are not
    redirects. *)
Definition get (prepare_url : string -> result string) (s : Session)
           (net : network) (url : string)
  : result response * nat * list Q :=
  match prepare_url url with
  | Raise e => (Raise e, 0%nat, [])
  | Ok prepared =>
      match get_adapter s prepared with
      | Ok a => send a (net prepared)
      | Raise e => (Raise e, 0%nat, [])
      end
  end.

(** [response.raise_for_status()]: a status of 400 to 599 raises. *)
Definition raise_for_status (r : response) : result unit :=
  if (400 <=? status_code r)%nat && (status_code r <? 600)%nat
  then Raise (HTTPError (status_code r))
  else Ok tt.

End Requests.

(** [requests_retry_session], lines 22-36. *)
Definition requests_retry_session (retries : nat) (backoff_factor : Q)
  : Requests.Session :=
  let session := Requests.new_session in
  let retry :=
    Requests.mk_Retry (Z.of_nat retries) (Z.of_nat retries) (Z.of_nat retries)
                      backoff_factor 0 in
  let adapter := Requests.mk_HTTPAdapter retry in
  let session := Requests.mount session "http://" adapter in
  let session := Requests.mount session "https://" adapter in
  session.

(** The default arguments of [requests_retry_session]. *)
Definition default_retries : nat := 3.
Definition default_backoff_factor : Q := 3 # 10.

(** The GET of a dataset access, line 59: the response or the exception
    raised, the number of attempts made, and the seconds waited before
    each retry. *)
Definition fetch_get (prepare_url : string -> result string)
           (net : Requests.network) (url : string)
  : result Requests.response * nat * list Q :=
  Requests.get prepare_url
    (requests_retry_session default_retries default_backoff_factor) net url.

(** The fetch of a dataset access, lines 59-62: the response, or the
    exception raised, and the number of attempts made. *)
Definition fetch (prepare_url : string -> result string)
           (net : Requests.network) (url : string)
  : result Requests.response * nat :=
  let '(r, n, _) := fetch_get prepare_url net url in
  (response <- r ;; _ <- Requests.raise_for_status response ;; Ok response, n).

(** The seconds the fetch waits before each of its retries. *)
Definition fetch_waits (prepare_url : string -> result string)
           (net : Requests.network) (url : string) : list Q :=
  snd (fetch_get prepare_url net url).

(** ** The catalog-backed dataset *)

Record catalog_row : Type := mk_catalog_row {
  subject_id : string;
  image_url : string
}.

Definition catalog : Type := list catalog_row.

(** [catalog.iloc[idx]]. *)
Definition iloc (c : catalog) (idx : Z) : result catalog_row :=
  Np.list_getitem c idx.

Inductive level : Type := DEBUG | INFO | WARNING | CRITICAL.

(** The messages the script logs.  Time stamps are not modelled. *)
Inductive message : Type :=
| Downloading_url (url : string)          (* 'Downloading url: {}' *)
| Cannot_load (url : string)              (* 'Cannot load {}' *)
| Beginning_predictions
| Starting_at
| Number_of_batches (n : nat)             (* len(predictions) *)
| Predictions_complete (shape : list nat) (* 'Predictions complete - {}' *)
| Saving_predictions_to (save_loc : string)
| Save_format_not_recognised (save_loc : string)
| Predictions_saved_to (save_loc : string)
| Completed_at
| Time_elapsed.

Definition log_record : Type := (level * message)%type.

(** The label of a prediction sample: a Python list, empty before the
    label transform. *)
Definition label : Type := list Q.

Section Dataset.

(** PIL images, decoded pixel arrays, and the decoders, which the
    script takes from PIL and galaxy_datasets. *)
Variable image : Type.
Variable pixels : Type.
Variable Image_open : Requests.stream -> result image.
Variable decode_jpeg : list Byte.byte -> result pixels.
Variable Image_fromarray : pixels -> result image.

(** The transforms of the dataset, [None] when not set. *)
Variable transform : option (image -> result image).
Variable target_transform : option (label -> result label).

(** The preparation of a URL by requests, and the network. *)
Variable prepare_url : string -> result string.
Variable net : Requests.network.

(** [response.headers['content-type']]. *)
Definition headers_content_type (response : Requests.response)
  : result string :=
  match Requests.content_type response with
  | Some t => Ok t
  | None => Raise KeyError
  end.

(** Lines 63-71: the decoder is chosen by the declared content type. *)
Definition decode (response : Requests.response) : result image :=
  url_mime_type <- headers_content_type response ;;
  if String.eqb url_mime_type "image/png" then
    Image_open (Requests.raw response)
  else
    arr <- decode_jpeg (Requests.raw_read (Requests.raw response)) ;;
    Image_fromarray arr.

(** The body of the [try], lines 57-71, without its logging. *)
Definition load_image (url : string) : result image :=
  response <- fst (fetch prepare_url net url) ;;
  decode response.

Definition apply_transform {A : Type} (t : option (A -> result A)) (x : A)
  : result A :=
  match t with
  | Some f => f x
  | None => Ok x
  end.

(** [PredictionGalaxyDataset.__getitem__], lines 47-91: what is
    logged, and the sample or the exception raised. *)
Definition getitem (c : catalog) (idx : Z)
  : list log_record * result (image * label) :=
  match iloc c idx with
  | Raise e => ([], Raise e)
  | Ok galaxy =>
      let url := image_url galaxy in
      match load_image url with
      | Raise e =>
          ([(DEBUG, Downloading_url url); (CRITICAL, Cannot_load url)],
           Raise e)
      | Ok img =>
          ([(DEBUG, Downloading_url url)],
           img' <- apply_transform transform img ;;
           label' <- apply_transform target_transform [] ;;
           Ok (img', label'))
      end
  end.

End Dataset.

(** ** The batch orchestrator *)

(** Tensors of rank 2, [(n_galaxies, n_answers)], and of rank 3,
    [(n_galaxies, n_answers, n_samples)]. *)
Definition tensor2 : Type := list (list Q).
Definition tensor3 : Type := list (list (list Q)).

Module Torch.

(** [torch.concat(ts, dim=0)]: an empty list of tensors is refused. *)
Definition concat (ts : list tensor2) : result tensor2 :=
  match ts with
  | [] => Raise RuntimeError
  | _ => Ok (List.concat ts)
  end.

Definition shape (t : tensor2) : list nat := map (@length Q) t.

(** [torch.stack(ts, dim=2)]: the tensors, of one shape, become the
    slices of a new last axis; an empty list is refused. *)
Definition stack_dim2 (ts : list tensor2) : result tensor3 :=
  match ts with
  | [] => Raise RuntimeError
  | t0 :: _ =>
      if forallb
           (fun t => if list_eq_dec Nat.eq_dec (shape t) (shape t0)
                     then true else false) ts
      then
        Ok (map (fun i =>
                   map (fun j => map (fun t => nth j (nth i t []) 0%Q) ts)
                       (seq 0 (length (nth i t0 []))))
                (seq 0 (length t0)))
      else Raise RuntimeError
  end.

End Torch.

(** A list comprehension over a body that can raise: the values in
    order, or the first exception. *)
Fixpoint traverse {A B : Type} (f : A -> result B) (l : list A)
  : result (list B) :=
  match l with
  | [] => Ok []
  | x :: l' => y <- f x ;; ys <- traverse f l' ;; Ok (y :: ys)
  end.

(** [range(n)]. *)
Definition range (n : Z) : list nat := seq 0 (Z.to_nat n).

(** [s.endswith(suffix)]: some tail of [s] is [suffix]. *)
Fixpoint endswith (s suffix : string) : bool :=
  if String.eqb s suffix then true
  else match s with
       | EmptyString => false
       | String _ s' => endswith s' suffix
       end.

(** The two writers of [zoobot.shared.save_predictions]. *)
Inductive writer : Type := predictions_to_csv | predictions_to_hdf5.

(** A call of a writer, with its arguments. *)
Record write_call : Type := mk_write_call {
  w_writer : writer;
  w_predictions : tensor3;
  w_image_id_strs : list string;
  w_label_cols : list string;
  w_save_loc : string
}.

(** What a run acts on: the number of passes of the model made so far
    (each pass draws its own dropout mask, so the number of the pass is
    the state of the model's randomness), the log, and the calls of the
    writers. *)
Record world : Type := mk_world {
  passes : nat;
  log : list log_record;
  written : list write_call
}.

(** Computations of a run: a state, and an exception or a value. *)
Definition M (A : Type) : Type := world -> result A * world.

Definition ret {A : Type} (a : A) : M A := fun w => (Ok a, w).

Definition bindM {A B : Type} (m : M A) (k : A -> M B) : M B :=
  fun w =>
    match m w with
    | (Ok a, w') => k a w'
    | (Raise e, w') => (Raise e, w')
    end.

Notation "x <~ m ;; k" := (bindM m (fun x => k))
  (at level 61, m at next level, right associativity).

Definition lift {A : Type} (r : result A) : M A := fun w => (r, w).

Definition logging (l : level) (m : message) : M unit :=
  fun w => (Ok tt, mk_world (passes w) (log w ++ [(l, m)]) (written w)).

Definition write (c : write_call) : M unit :=
  fun w => (Ok tt, mk_world (passes w) (log w) (written w ++ [c])).

Fixpoint mapM {A B : Type} (f : A -> M B) (l : list A) : M (list B) :=
  match l with
  | [] => ret []
  | x :: l' => y <~ f x ;; ys <~ mapM f l' ;; ret (y :: ys)
  end.

(** The batches of a sequential loader: [batch_size] items in order,
    the last batch being what is left.  [acc] holds the current batch,
    reversed. *)
Fixpoint batched {A : Type} (batch_size : nat) (acc : list A) (l : list A)
  : list (list A) :=
  match l with
  | [] => match acc with [] => [] | _ => [rev acc] end
  | x :: l' =>
      if (S (length acc) =? batch_size)%nat
      then rev (x :: acc) :: batched batch_size [] l'
      else batched batch_size (x :: acc) l'
  end.

Section Predict.

Variable image : Type.
Variable pixels : Type.
Variable Image_open : Requests.stream -> result image.
Variable decode_jpeg : list Byte.byte -> result pixels.
Variable Image_fromarray : pixels -> result image.
Variable transform : option (image -> result image).
Variable prepare_url : string -> result string.
Variable net : Requests.network.

(** The model, as [predict] takes it: what pass number [k] returns
    for an image, a row of [n_answers] concentrations. *)
Definition LightningModule : Type := nat -> image -> list Q.

(** The dataset access as a step of the run: its messages go to the
    log. *)
Definition dataset_getitem (c : catalog) (idx : nat) : M (image * label) :=
  fun w =>
    let (msgs, r) :=
      getitem image pixels Image_open decode_jpeg Image_fromarray
              transform None prepare_url net c (Z.of_nat idx) in
    (r, mk_world (passes w) (log w ++ msgs) (written w)).

(** The loader of the prediction dataset: the indices of the catalog
    in order, in batches.  A batch size of zero is refused.
    galaxy_datasets and pytorch_lightning are not part of the
    repository: the loader is modelled as the sequential, unshuffled
    loader that a prediction loader is, and its workers are not
    modelled. *)
Definition predict_dataloader (c : catalog) (batch_size : nat)
  : result (list (list nat)) :=
  if (batch_size =? 0)%nat then Raise ValueError
  else Ok (batched batch_size [] (seq 0 (length c))).

(** [trainer.predict(model, predict_datamodule)]: one pass of the
    model over the batches, a tensor per batch. *)
Definition trainer_predict (model : LightningModule) (c : catalog)
           (batch_size : nat) : M (list tensor2) :=
  fun w =>
    let k := passes w in
    let w1 := mk_world (S k) (log w) (written w) in
    match predict_dataloader c batch_size with
    | Raise e => (Raise e, w1)
    | Ok batches =>
        mapM (fun batch =>
                samples <~ mapM (dataset_getitem c) batch ;;
                ret (map (fun s => model k (fst s)) samples))
             batches w1
    end.

(** Lines 150-156: the writer is chosen by the suffix of [save_loc]. *)
Definition save (predictions : tensor3) (image_id_strs label_cols : list string)
           (save_loc : string) : M unit :=
  if endswith save_loc ".csv" then
    write (mk_write_call predictions_to_csv predictions image_id_strs
                         label_cols save_loc)
  else if endswith save_loc ".hdf5" then
    write (mk_write_call predictions_to_hdf5 predictions image_id_strs
                         label_cols save_loc)
  else
    _ <~ logging WARNING (Save_format_not_recognised save_loc) ;;
    write (mk_write_call predictions_to_csv predictions image_id_strs
                         label_cols save_loc).

Definition tensor3_shape (t : tensor3) : list nat :=
  [length t; length (nth 0 t []); length (nth 0 (nth 0 t []) [])]%nat.

(** [predict], lines 103-162: the identifiers (line 105), the one call
    of [trainer.predict] (line 139), the comprehension and the stack of
    line 145, and the dispatch on [save_loc].  [batch_size] is what
    [datamodule_kwargs] sets. *)
Definition predict (c : catalog) (model : LightningModule) (n_samples : Z)
           (label_cols : list string) (save_loc : string)
           (batch_size : nat) : M unit :=
  let image_id_strs := map subject_id c in
  _ <~ logging INFO Beginning_predictions ;;
  _ <~ logging INFO Starting_at ;;
  predictions <~ trainer_predict model c batch_size ;;
  _ <~ logging INFO (Number_of_batches (length predictions)) ;;
  repeated <~ lift (traverse (fun _ => Torch.concat predictions)
                             (range n_samples)) ;;
  predictions <~ lift (Torch.stack_dim2 repeated) ;;
  _ <~ logging INFO (Predictions_complete (tensor3_shape predictions)) ;;
  _ <~ logging INFO (Saving_predictions_to save_loc) ;;
  _ <~ save predictions image_id_strs label_cols save_loc ;;
  _ <~ logging INFO (Predictions_saved_to save_loc) ;;
  _ <~ logging INFO Completed_at ;;
  logging INFO Time_elapsed.

End Predict.

(** * Predicates and inputs of the properties *)

(** ** Statements about the statistics functions *)


(** The scenario of the script's own tests: [[8, 2, 1.5], [4, 5, 1.5]]. *)
Definition test_predictions : Np.ndarray :=
  Np.mk_ndarray 3 [[8; 2; 3 # 2]; [4; 5; 3 # 2]]%Q.


(** ** Statements about the fetch *)

(** A failure of the connection or of the read, as opposed to a
    response. *)
Definition transient (a : Requests.attempt) : bool :=
  match a with
  | Requests.Responded _ => false
  | _ => true
  end.

(** A response that urllib3 sends again while the budget lasts: a 413,
    429 or 503 that carries a Retry-After header. *)
Definition throttled (resp : Requests.response) : bool :=
  Requests.has_retry_after resp
  && existsb (Nat.eqb (Requests.status_code resp))
             Requests.RETRY_AFTER_STATUS_CODES.

(** An attempt that is made again while the budget lasts: a failure, or
    a throttled response whose Retry-After header can be read. *)
Definition retried (a : Requests.attempt) : bool :=
  match a with
  | Requests.Responded resp =>
      throttled resp
      && match Requests.retry_after resp with
         | Some Requests.Unparsable => false
         | _ => true
         end
  | _ => true
  end.

(** A budget as the script builds it: no counter below the total. *)
Definition uniform_budget (r : Requests.Retry) : Prop :=
  0 <= Requests.total r /\
  Requests.total r <= Requests.read r /\
  Requests.total r <= Requests.connect r.

(** The budget of [requests_retry_session retries backoff_factor]. *)
Definition configured_retry (retries : nat) (backoff_factor : Q)
  : Requests.Retry :=
  Requests.mk_Retry (Z.of_nat retries) (Z.of_nat retries) (Z.of_nat retries)
                    backoff_factor 0.

(** A preparation that leaves the URL as it is, which is what requests
    does with the URLs of the examples below: a scheme and a host in
    lower case, a path, nothing to quote. *)
Definition sent_as_given (url : string) : result string := Ok url.

(** A URL of the http or of the https scheme. *)
Definition http_or_https (url : string) : Prop :=
  exists rest, url = "http://" ++ rest \/ url = "https://" ++ rest.

(** A response of status 200. *)
Definition ok_response : Requests.response :=
  Requests.mk_response 200 (Some "image/jpeg") None None
    (Requests.mk_stream []).

(** A network on which the first two attempts at any URL fail and the
    third is answered. *)
Definition flaky_network : Requests.network :=
  fun _ n =>
    match n with
    | O => Requests.ConnectFailure
    | S O => Requests.ReadFailure
    | _ => Requests.Responded ok_response
    end.

(** The network that answers every attempt with [r]. *)
Definition serving (r : Requests.response) : Requests.network :=
  fun _ _ => Requests.Responded r.

(** A response of status 500. *)
Definition error_response : Requests.response :=
  Requests.mk_response 500 None None None (Requests.mk_stream []).

(** A 503 that asks to wait one second, and a network that answers the
    first attempt at any URL with it and the next ones with a 200. *)
Definition throttled_response : Requests.response :=
  Requests.mk_response 503 None (Some (Requests.Seconds 1)) None
    (Requests.mk_stream []).

Definition throttling_network : Requests.network :=
  fun _ n =>
    match n with
    | O => Requests.Responded throttled_response
    | _ => Requests.Responded ok_response
    end.

(** A response of status 404. *)
Definition not_found_response : Requests.response :=
  Requests.mk_response 404 None None None (Requests.mk_stream []).

(** A network on which every attempt fails. *)
Definition dead_network : Requests.network :=
  fun _ _ => Requests.ConnectFailure.

(** The seconds waited before a retry when the attempts made so far,
    [made] of them, all failed. *)
Definition backoff_wait (backoff_factor : Q) (made : nat) : Q :=
  let b :=
    Requests.get_backoff_time (Requests.mk_Retry 0 0 0 backoff_factor made) in
  if Qle_bool b 0 then 0%Q else b.

(** ** Statements about the dataset access *)

(** Decoders that keep the bytes, tagged by the decoder that read
    them. *)
Inductive decoded : Type :=
| Png (bytes : list Byte.byte)
| Jpeg (bytes : list Byte.byte).

(** A PNG and a JPEG response, of two bytes each. *)
Definition png_response : Requests.response :=
  Requests.mk_response 200 (Some "image/png") None None
    (Requests.mk_stream [Byte.x89; Byte.x50]).

Definition jpeg_response : Requests.response :=
  Requests.mk_response 200 (Some "image/jpeg") None None
    (Requests.mk_stream [Byte.xff; Byte.xd8]).

(** A catalog of one row. *)
Definition one_row_catalog : catalog :=
  [mk_catalog_row "subject-1" "https://example.org/1.jpg"].

(** ** Statements about a run of [predict] *)

(** [m] returns [r] whatever the state, touching the log only. *)
Definition quietly {A : Type} (m : M A) (r : result A) : Prop :=
  forall w, exists w',
    m w = (r, w') /\ passes w' = passes w /\ written w' = written w.

(** The writer lines 150-156 select for a destination. *)
Definition selected_writer (save_loc : string) : writer :=
  if endswith save_loc ".csv" then predictions_to_csv
  else if endswith save_loc ".hdf5" then predictions_to_hdf5
  else predictions_to_csv.

Section Outcome.

Variable image : Type.
Variable pixels : Type.
Variable Image_open : Requests.stream -> result image.
Variable decode_jpeg : list Byte.byte -> result pixels.
Variable Image_fromarray : pixels -> result image.
Variable transform : option (image -> result image).
Variable prepare_url : string -> result string.
Variable net : Requests.network.

Variable c : catalog.
Variable model : LightningModule image.
Variable n_samples : Z.
Variable batch_size : nat.

(** The sample of index [idx], or the exception of its access. *)
Definition sample (idx : nat) : result (image * label) :=
  snd (getitem image pixels Image_open decode_jpeg Image_fromarray
               transform None prepare_url net c (Z.of_nat idx)).

(** The tensors of the batches of pass number [k]. *)
Definition pass_tensors (k : nat) : result (list tensor2) :=
  batches <- predict_dataloader c batch_size ;;
  traverse (fun batch =>
              samples <- traverse sample batch ;;
              Ok (map (fun s => model k (fst s)) samples))
           batches.

(** The tensor [predict] hands to the writer when the pass it makes
    is pass number [k]. *)
Definition predicted (k : nat) : result tensor3 :=
  predictions <- pass_tensors k ;;
  repeated <- traverse (fun _ => Torch.concat predictions)
                       (range n_samples) ;;
  Torch.stack_dim2 repeated.

End Outcome.

(** ** A concrete run *)

(** A catalog of three rows, a server that answers each URL with a JPEG
    whose bytes are the URL, and a model that returns the number of the
    bytes of the image and the number of the pass. *)
Definition three_row_catalog : catalog :=
  [mk_catalog_row "subject-a" "https://example.org/a.jpg";
   mk_catalog_row "subject-b" "https://example.org/bb.jpg";
   mk_catalog_row "subject-c" "https://example.org/ccc.jpg"].

Definition echo_network : Requests.network :=
  fun url _ =>
    Requests.Responded
      (Requests.mk_response 200 (Some "image/jpeg") None None
         (Requests.mk_stream (list_byte_of_string url))).

Definition image_bytes (img : decoded) : list Byte.byte :=
  match img with
  | Png b => b
  | Jpeg b => b
  end.

Definition size_and_pass_model : LightningModule decoded :=
  fun k img =>
    [inject_Z (Z.of_nat (length (image_bytes img))); inject_Z (Z.of_nat k)].

Definition initial_world : world := mk_world 0 [] [].

(** ** Statements about the edges of the statistics functions *)

(** An entry that is an infinity or a NaN. *)
Definition not_finite (x : Np.float) : Prop :=
  match x with
  | Np.Finite _ => False
  | _ => True
  end.

(** A row whose two entries are zero. *)
Definition zero_predictions : Np.ndarray :=
  Np.mk_ndarray 2 [[0; 0]]%Q.

(** A response of status 200 that declares no content type. *)
Definition untyped_response : Requests.response :=
  Requests.mk_response 200 None None None
    (Requests.mk_stream [Byte.xff; Byte.xd8]).

(** A transform that refuses every image. *)
Definition failing_transform : decoded -> result decoded :=
  fun _ => Raise ValueError.

(** * The job service, [bajor/main.py] *)

Module Bajor.

(** [os.environ]: the variables that are set.  Strings are sequences of
    code points below 256. *)
Definition environ : Type := string -> option string.

(** [os.environ.get(key, default)]. *)
Definition environ_get (env : environ) (key default : string) : string :=
  match env key with
  | Some v => v
  | None => default
  end.

(** [HTTPBasicCredentials]. *)
Record HTTPBasicCredentials : Type := mk_credentials {
  username : string;
  password : string
}.

(** [Job], lines 19-22. *)
Record Job : Type := mk_Job {
  manifest_path : string;
  job_id : option string;
  scheduled : option string
}.

(** What a handler comes to: a value, a TypeError, or the
    [HTTPException] it raises. *)
Inductive outcome (A : Type) : Type :=
| Returned (a : A)
| TypeError
| HTTPException (status_code : nat) (detail : string)
                (headers : list (string * string)).
Arguments Returned {A} a.
Arguments TypeError {A}.
Arguments HTTPException {A} status_code detail headers.

Definition and_then {A B : Type} (o : outcome A) (k : A -> outcome B)
  : outcome B :=
  match o with
  | Returned a => k a
  | TypeError => TypeError
  | HTTPException st d h => HTTPException st d h
  end.

Definition is_ascii (s : string) : bool :=
  forallb (fun ch => (nat_of_ascii ch <? 128)%nat) (list_ascii_of_string s).

(** [secrets.compare_digest(a, b)] on two [str]: equality, and a
    TypeError when one of them is not ASCII.  Its constant running time
    is not modelled. *)
Definition compare_digest (a b : string) : outcome bool :=
  if is_ascii a && is_ascii b then Returned (String.eqb a b) else TypeError.

Definition HTTP_201_CREATED : nat := 201.
Definition HTTP_401_UNAUTHORIZED : nat := 401.

(** [validate_basic_auth], lines 24-32. *)
Definition validate_basic_auth (env : environ)
           (credentials : HTTPBasicCredentials) : outcome bool :=
  and_then
    (compare_digest (username credentials)
                    (environ_get env "BASIC_AUTH_USERNAME" "bajor"))
    (fun correct_username =>
       and_then
         (compare_digest (password credentials)
                         (environ_get env "BASIC_AUTH_PASSWORD" "bajor"))
         (fun correct_password =>
            if negb (correct_username && correct_password)
            then Returned false
            else Returned true)).

(** [schedule_job], lines 34-44, given what its dependency returned. *)
Definition schedule_job (job : Job) (authorized : bool) : outcome Job :=
  if negb authorized then
    HTTPException HTTP_401_UNAUTHORIZED "Incorrect username or password"
                  [("WWW-Authenticate", "Basic")]
  else Returned job.

(** A POST to [/jobs/] that carries Basic credentials and a valid job:
    the dependency [validate_basic_auth] is evaluated on the credentials
    and its value is passed to [schedule_job]; a job returned is
    answered with status 201.  The answers that FastAPI gives by itself,
    to a request without credentials or with a malformed body, are not
    modelled. *)
Definition post_jobs (env : environ) (credentials : HTTPBasicCredentials)
           (job : Job) : outcome (nat * Job) :=
  and_then (validate_basic_auth env credentials)
    (fun authorized =>
       and_then (schedule_job job authorized)
         (fun j => Returned (HTTP_201_CREATED, j))).

(** [root], lines 46-48. *)
Definition root (env : environ) : list (string * option string) :=
  [("revision", env "REVISION")].

(** An environment that sets no variable, one that sets the two
    variables of the service, and a job. *)
Definition empty_environ : environ := fun _ => None.

Definition configured_environ : environ :=
  fun key =>
    if String.eqb key "BASIC_AUTH_USERNAME" then Some "operator"
    else if String.eqb key "BASIC_AUTH_PASSWORD" then Some "s3cret"
    else None.


Definition example_job : Job :=
  mk_Job "manifests/run-1.csv" (Some "job-1") None.

End Bajor.

(** * Properties *)

(** ** Lists, slices and entrywise maps *)

Section ListFacts.

Context {A : Type}.

Lemma firstn_skipn_seq (d : A) (row : list A) :
  forall s k, (s + k <= length row)%nat ->
    firstn k (skipn s row) = map (fun j => nth j row d) (seq s k).
Proof.
  induction row as [|x r IH]; intros s k Hle; simpl in Hle.
  - assert (s = 0%nat) by lia. assert (k = 0%nat) by lia. subst. reflexivity.
  - destruct s as [|s'].
    + destruct k as [|k']; [reflexivity|].
      simpl. f_equal.
      rewrite <- seq_shift, map_map.
      rewrite <- (IH 0%nat k') by lia. reflexivity.
    + simpl skipn. rewrite (IH s' k) by lia.
      rewrite <- (seq_shift k s'), map_map. reflexivity.
Qed.

Lemma adjust_index_of_nat (n j : nat) :
  (j <= n)%nat -> Np.adjust_index n (Z.of_nat j) = j.
Proof.
  intros Hj. unfold Np.adjust_index.
  destruct (Z.ltb_spec (Z.of_nat j) 0); [lia|].
  destruct (Z.ltb_spec (Z.of_nat j) 0); [lia|].
  destruct (Z.ltb_spec (Z.of_nat n) (Z.of_nat j)); [lia|].
  apply Nat2Z.id.
Qed.

(** Inside the axis, the slice [start : end + 1] is the columns
    [start .. end], both included. *)
Lemma slice_inclusive (d : A) (row : list A) (s e : nat) :
  (s <= e)%nat -> (e < length row)%nat ->
  Np.slice row (Z.of_nat s) (Z.of_nat e + 1)
  = map (fun j => nth j row d) (seq s (S e - s)).
Proof.
  intros Hse He. unfold Np.slice.
  replace (Z.of_nat e + 1) with (Z.of_nat (S e)) by lia.
  rewrite !adjust_index_of_nat by lia.
  apply firstn_skipn_seq. lia.
Qed.

Lemma list_getitem_0 (x : A) (l : list A) :
  Np.list_getitem (x :: l) 0 = Ok x.
Proof.
  unfold Np.list_getitem. simpl length.
  destruct (Z.ltb_spec 0 0); [lia|].
  destruct (Z.ltb_spec 0 0); [lia|].
  destruct (Z.leb_spec (Z.of_nat (S (length l))) 0); [lia|].
  reflexivity.
Qed.

Lemma list_getitem_1 (x y : A) (l : list A) :
  Np.list_getitem (x :: y :: l) 1 = Ok y.
Proof.
  unfold Np.list_getitem. simpl length.
  destruct (Z.ltb_spec 1 0); [lia|].
  destruct (Z.ltb_spec 1 0); [lia|].
  destruct (Z.leb_spec (Z.of_nat (S (S (length l)))) 1); [lia|].
  reflexivity.
Qed.

End ListFacts.

Section ZipFacts.

Context {A B C : Type} (f : A -> B -> C).

Lemma zip_with_length (xs : list A) :
  forall ys, length xs = length ys ->
    length (Np.zip_with f xs ys) = length xs.
Proof.
  induction xs as [|x xs IH]; intros [|y ys] H; simpl in *;
    try discriminate; auto.
Qed.

Lemma zip_with_nth_error (xs : list A) :
  forall ys i x y,
    nth_error xs i = Some x -> nth_error ys i = Some y ->
    nth_error (Np.zip_with f xs ys) i = Some (f x y).
Proof.
  induction xs as [|x0 xs IH]; intros [|y0 ys] [|i] x y Hx Hy;
    simpl in *; try discriminate.
  - congruence.
  - eauto.
Qed.

(** The entrywise combination of two maps over one list. *)
Lemma zip_with_map {D : Type} (g : D -> A) (h : D -> B) (l : list D) :
  Np.zip_with f (map g l) (map h l) = map (fun r => f (g r) (h r)) l.
Proof.
  induction l as [|r l IH]; simpl; [reflexivity | now rewrite IH].
Qed.

End ZipFacts.

(** Inside axis 1, a column index is itself. *)
Lemma column_index_of_nat (a : Np.ndarray) (j : nat) :
  (j < Np.shape1 a)%nat -> Np.column_index a (Z.of_nat j) = Ok j.
Proof.
  intros Hj. unfold Np.column_index.
  destruct (Z.ltb_spec (Z.of_nat j) 0); [lia|].
  destruct (Z.ltb_spec (Z.of_nat j) 0); [lia|].
  destruct (Z.leb_spec (Z.of_nat (Np.shape1 a)) (Z.of_nat j)); [lia|].
  simpl. now rewrite Nat2Z.id.
Qed.

(** The row-wise sum the functions compute is, on a question range
    inside the columns, the inclusive sum of the description. *)
Lemma slice_sum_axis1_inclusive (a : Np.ndarray) (n_galaxies n_answers s e : nat) :
  Np.has_shape a n_galaxies n_answers ->
  (s <= e)%nat -> (e < n_answers)%nat ->
  Np.slice_sum_axis1 a (Z.of_nat s) (Z.of_nat e + 1)
  = map (fun r => Stated.alpha_total r s e) (Np.rows a).
Proof.
  intros (_ & _ & Hrows) Hse He. unfold Np.slice_sum_axis1.
  apply map_ext_in. intros r Hr.
  rewrite Forall_forall in Hrows. specialize (Hrows r Hr).
  unfold Stated.alpha_total, Stated.entry.
  now rewrite (slice_inclusive 0%Q) by lia.
Qed.

(** Both functions, on a question range inside the columns, as one map
    over the rows. *)
Lemma expectation_as_map (a : Np.ndarray) (n_galaxies n_answers s e ans : nat)
    (rest : list Z) :
  Np.has_shape a n_galaxies n_answers ->
  (s <= e)%nat -> (e < n_answers)%nat -> (ans < n_answers)%nat ->
  predictions_to_expectation_of_answer a
    (Z.of_nat s :: Z.of_nat e :: rest) (Z.of_nat ans)
  = Ok (map (fun r => Np.true_divide (Stated.alpha_answer r ans)
                                     (Stated.alpha_total r s e))
            (Np.rows a)).
Proof.
  intros Hshape Hse He Hans.
  unfold predictions_to_expectation_of_answer.
  rewrite list_getitem_0, list_getitem_1. simpl bind.
  rewrite (slice_sum_axis1_inclusive a n_galaxies n_answers) by assumption.
  unfold Np.column. rewrite column_index_of_nat by (destruct Hshape as (_ & -> & _); lia).
  simpl bind. now rewrite zip_with_map.
Qed.

Lemma variance_as_map (a : Np.ndarray) (n_galaxies n_answers s e ans : nat)
    (rest : list Z) :
  Np.has_shape a n_galaxies n_answers ->
  (s <= e)%nat -> (e < n_answers)%nat -> (ans < n_answers)%nat ->
  predictions_to_variance_of_answer a
    (Z.of_nat s :: Z.of_nat e :: rest) (Z.of_nat ans)
  = Ok (map (fun r =>
               let ai := Stated.alpha_answer r ans in
               let aall := Stated.alpha_total r s e in
               Np.true_divide (ai * (aall - ai))%Q
                              ((aall ^ 2) * (aall + 1))%Q)
            (Np.rows a)).
Proof.
  intros Hshape Hse He Hans.
  unfold predictions_to_variance_of_answer.
  rewrite list_getitem_0, list_getitem_1. simpl bind.
  rewrite (slice_sum_axis1_inclusive a n_galaxies n_answers) by assumption.
  unfold Np.column. rewrite column_index_of_nat by (destruct Hshape as (_ & -> & _); lia).
  simpl bind. now rewrite zip_with_map.
Qed.

(** ** The statistics functions: what they return *)

(** C1: on a predictions array of shape (n_galaxies, n_answers), a
    question range [start_index, end_index] with
    0 <= start_index <= end_index < n_answers and an answer_index in that
    range, predictions_to_expectation_of_answer returns a vector of
    length n_galaxies whose entry for row i is predictions[i, answer_index]
    divided by the sum of predictions[i, start_index..end_index], both
    ends included. *)
Theorem expectation_of_answer_correct
    (predictions : Np.ndarray) (n_galaxies n_answers : nat)
    (start_index end_index answer_index : nat) :
  Np.has_shape predictions n_galaxies n_answers ->
  (start_index <= end_index)%nat -> (end_index < n_answers)%nat ->
  (start_index <= answer_index)%nat -> (answer_index <= end_index)%nat ->
  exists out,
    predictions_to_expectation_of_answer predictions
      [Z.of_nat start_index; Z.of_nat end_index] (Z.of_nat answer_index)
    = Ok out /\
    length out = n_galaxies /\
    forall i row, nth_error (Np.rows predictions) i = Some row ->
      nth_error out i
      = Some (Np.true_divide (Stated.alpha_answer row answer_index)
                (Stated.alpha_total row start_index end_index)).
Proof.
  intros Hshape Hse He Hsa Hae.
  eexists. split; [|split].
  - apply (expectation_as_map predictions n_galaxies n_answers); auto; lia.
  - rewrite length_map. apply Hshape.
  - intros i row Hrow. now rewrite nth_error_map, Hrow.
Qed.

Lemma expectation_of_answer_correct_witness :
  exists out,
    predictions_to_expectation_of_answer test_predictions [0; 2] 0 = Ok out /\
    length out = 2%nat /\
    forall i row, nth_error (Np.rows test_predictions) i = Some row ->
      nth_error out i
      = Some (Np.true_divide (Stated.alpha_answer row 0)
                (Stated.alpha_total row 0 2)).
Proof.
  apply (expectation_of_answer_correct test_predictions 2 3 0 2 0); try lia.
  repeat split; repeat constructor.
Defined.

(** C2: under the same conditions, predictions_to_variance_of_answer
    returns, per row, alpha_answer * (alpha_total - alpha_answer) /
    (alpha_total^2 * (alpha_total + 1)), with alpha_answer the entry
    predictions[row, answer_index] and alpha_total the inclusive
    row-wise sum of the question's columns. *)
Theorem variance_of_answer_correct
    (predictions : Np.ndarray) (n_galaxies n_answers : nat)
    (start_index end_index answer_index : nat) :
  Np.has_shape predictions n_galaxies n_answers ->
  (start_index <= end_index)%nat -> (end_index < n_answers)%nat ->
  (start_index <= answer_index)%nat -> (answer_index <= end_index)%nat ->
  exists out,
    predictions_to_variance_of_answer predictions
      [Z.of_nat start_index; Z.of_nat end_index] (Z.of_nat answer_index)
    = Ok out /\
    length out = n_galaxies /\
    forall i row, nth_error (Np.rows predictions) i = Some row ->
      let alpha_answer := Stated.alpha_answer row answer_index in
      let alpha_total := Stated.alpha_total row start_index end_index in
      nth_error out i
      = Some (Np.true_divide
                (alpha_answer * (alpha_total - alpha_answer))%Q
                ((alpha_total ^ 2) * (alpha_total + 1))%Q).
Proof.
  intros Hshape Hse He Hsa Hae.
  eexists. split; [|split].
  - apply (variance_as_map predictions n_galaxies n_answers); auto; lia.
  - rewrite length_map. apply Hshape.
  - intros i row Hrow. cbv zeta. now rewrite nth_error_map, Hrow.
Qed.

Lemma variance_of_answer_correct_witness :
  exists out,
    predictions_to_variance_of_answer test_predictions [0; 2] 0 = Ok out /\
    length out = 2%nat /\
    forall i row, nth_error (Np.rows test_predictions) i = Some row ->
      let alpha_answer := Stated.alpha_answer row 0 in
      let alpha_total := Stated.alpha_total row 0 2 in
      nth_error out i
      = Some (Np.true_divide
                (alpha_answer * (alpha_total - alpha_answer))%Q
                ((alpha_total ^ 2) * (alpha_total + 1))%Q).
Proof.
  apply (variance_of_answer_correct test_predictions 2 3 0 2 0); try lia.
  repeat split; repeat constructor.
Defined.

(** ** The statistics functions: bounds and the relation between them *)









(** ** The retrying fetch: the retry budget *)

Arguments Requests.increment : simpl never.
Arguments Requests.is_exhausted : simpl never.
Arguments Requests.is_retry : simpl never.
Arguments Requests.sleep : simpl never.

Lemma total_increment (r : Requests.Retry) (f : Requests.failure) :
  Requests.total (Requests.increment r f) = Requests.total r - 1.
Proof. destruct f; reflexivity. Qed.

Lemma backoff_factor_increment (r : Requests.Retry) (f : Requests.failure) :
  Requests.backoff_factor (Requests.increment r f) = Requests.backoff_factor r.
Proof. destruct f; reflexivity. Qed.

Lemma history_increment (r : Requests.Retry) (f : Requests.failure) :
  Requests.history (Requests.increment r f) = S (Requests.history r).
Proof. destruct f; reflexivity. Qed.

Lemma uniform_budget_increment (r : Requests.Retry) (f : Requests.failure) :
  uniform_budget r -> 0 < Requests.total r ->
  uniform_budget (Requests.increment r f).
Proof.
  intros (H0 & Hr & Hc) Hpos.
  destruct f; unfold uniform_budget, Requests.increment; simpl;
    repeat split; lia.
Qed.

Lemma is_exhausted_increment (r : Requests.Retry) (f : Requests.failure) :
  uniform_budget r ->
  Requests.is_exhausted (Requests.increment r f)
  = (Requests.total r <=? 0).
Proof.
  intros (H0 & Hr & Hc). unfold Requests.is_exhausted.
  destruct (Z.leb_spec (Requests.total r) 0);
    destruct f; unfold Requests.increment; simpl;
    apply Z.ltb_lt || apply Z.ltb_ge; lia.
Qed.

Lemma is_retry_throttled (r : Requests.Retry) (resp : Requests.response) :
  Requests.is_retry r (Requests.status_code resp)
    (Requests.has_retry_after resp)
  = negb (Requests.total r =? 0) && throttled resp.
Proof.
  unfold Requests.is_retry, throttled. now rewrite andb_assoc.
Qed.

Lemma sleep_after_failure (r : Requests.Retry) :
  exists seconds, Requests.sleep r None = Ok seconds.
Proof. eexists. reflexivity. Qed.

Lemma sleep_after_response (r : Requests.Retry) (resp : Requests.response) :
  retried (Requests.Responded resp) = true ->
  exists seconds, Requests.sleep r (Some resp) = Ok seconds.
Proof.
  unfold retried, Requests.sleep. intros H.
  apply andb_true_iff in H. destruct H as [_ H].
  destruct (Requests.retry_after resp) as [[s|]|]; try discriminate H.
  - destruct (Qle_bool s 0); eexists; reflexivity.
  - eexists. reflexivity.
Qed.

(** An attempt that is made again, within the budget: the loop goes on
    to the next attempt with one less in the budget. *)
Lemma urlopen_retries (attempts : nat -> Requests.attempt)
    (fuel n : nat) (r : Requests.Retry) (slept : list Q) :
  uniform_budget r -> 0 < Requests.total r ->
  retried (attempts n) = true ->
  exists f seconds,
    Requests.urlopen (S fuel) attempts n r slept
    = Requests.urlopen fuel attempts (S n) (Requests.increment r f)
        (slept ++ [seconds])%list.
Proof.
  intros Hu Hpos Hretried. cbn [Requests.urlopen].
  assert (Hleb : (Requests.total r <=? 0) = false) by (apply Z.leb_gt; lia).
  destruct (attempts n) as [| |resp] eqn:E.
  - exists Requests.ConnectError.
    rewrite is_exhausted_increment, Hleb by assumption.
    destruct (sleep_after_failure
                (Requests.increment r Requests.ConnectError)) as [s ->].
    now exists s.
  - exists Requests.ReadError.
    rewrite is_exhausted_increment, Hleb by assumption.
    destruct (sleep_after_failure
                (Requests.increment r Requests.ReadError)) as [s ->].
    now exists s.
  - exists Requests.StatusError.
    rewrite is_retry_throttled.
    assert (Hthrottled : throttled resp = true).
    { unfold retried in Hretried.
      apply andb_true_iff in Hretried. tauto. }
    rewrite Hthrottled.
    replace (Requests.total r =? 0) with false
      by (symmetry; apply Z.eqb_neq; lia).
    cbn [andb negb].
    rewrite is_exhausted_increment, Hleb by assumption.
    destruct (sleep_after_response
                (Requests.increment r Requests.StatusError) resp Hretried)
      as [s ->].
    now exists s.
Qed.

(** A response that is not sent again ends the loop. *)
Lemma urlopen_returns (attempts : nat -> Requests.attempt)
    (resp : Requests.response) (fuel n : nat) (r : Requests.Retry)
    (slept : list Q) :
  attempts n = Requests.Responded resp ->
  Requests.total r = 0 \/ throttled resp = false ->
  Requests.urlopen fuel attempts n r slept = (Ok resp, S n, slept).
Proof.
  intros Hresp Hfinal.
  assert (Hno : Requests.is_retry r (Requests.status_code resp)
                  (Requests.has_retry_after resp) = false).
  { rewrite is_retry_throttled. destruct Hfinal as [-> | ->].
    - reflexivity.
    - apply andb_false_r. }
  destruct fuel; cbn [Requests.urlopen]; now rewrite Hresp, Hno.
Qed.

(** [k] attempts that are made again, within the budget, then a
    response that is not: the response is returned at attempt
    [k + 1], after [k] waits. *)
Lemma urlopen_recovers (attempts : nat -> Requests.attempt)
    (resp : Requests.response) :
  forall k fuel n r slept,
    uniform_budget r ->
    (Z.of_nat k <= Requests.total r) -> (k <= fuel)%nat ->
    (forall i, (i < k)%nat -> retried (attempts (n + i)%nat) = true) ->
    attempts (n + k)%nat = Requests.Responded resp ->
    (Z.of_nat k < Requests.total r -> throttled resp = false) ->
    exists waits,
      Requests.urlopen fuel attempts n r slept
      = (Ok resp, S (n + k), (slept ++ waits)%list) /\
      length waits = k.
Proof.
  induction k as [|k IH];
    intros fuel n r slept Hu Hk Hfuel Hretried Hresp Hlast.
  - rewrite Nat.add_0_r in *. exists []. rewrite app_nil_r.
    split; [|reflexivity].
    apply urlopen_returns; [assumption|].
    destruct Hu as (H0 & _).
    destruct (Z.eq_dec (Requests.total r) 0); [now left|].
    right. apply Hlast. simpl. lia.
  - destruct fuel as [|fuel]; [lia|].
    assert (H0 := Hretried 0%nat ltac:(lia)). rewrite Nat.add_0_r in H0.
    destruct (urlopen_retries attempts fuel n r slept Hu ltac:(lia) H0)
      as (f & seconds & ->).
    destruct (IH fuel (S n) (Requests.increment r f) (slept ++ [seconds])%list)
      as (waits & E & Hlen).
    + apply uniform_budget_increment; [assumption | lia].
    + rewrite total_increment. lia.
    + lia.
    + intros i Hi. replace (S n + i)%nat with (n + S i)%nat by lia.
      apply Hretried. lia.
    + replace (S n + k)%nat with (n + S k)%nat by lia. assumption.
    + rewrite total_increment. intros H. apply Hlast. lia.
    + exists (seconds :: waits). split.
      * rewrite E. replace (S n + k)%nat with (n + S k)%nat by lia.
        now rewrite <- app_assoc.
      * simpl. now rewrite Hlen.
Qed.

(** As many attempts made again as the budget allows, then a failure:
    the loop gives up at attempt [total + 1]. *)
Lemma urlopen_gives_up (attempts : nat -> Requests.attempt) :
  forall b fuel n r slept,
    uniform_budget r ->
    Requests.total r = Z.of_nat b -> (b <= fuel)%nat ->
    (forall i, (i < b)%nat -> retried (attempts (n + i)%nat) = true) ->
    transient (attempts (n + b)%nat) = true ->
    exists waits,
      Requests.urlopen fuel attempts n r slept
      = (Raise ConnectionError, S (n + b), (slept ++ waits)%list) /\
      length waits = b.
Proof.
  induction b as [|b IH]; intros fuel n r slept Hu Hb Hfuel Hretried Hfail.
  - rewrite Nat.add_0_r in *. exists []. rewrite app_nil_r.
    split; [|reflexivity].
    unfold transient in Hfail.
    destruct fuel; cbn [Requests.urlopen]; destruct (attempts n) eqn:E;
      try discriminate Hfail;
      rewrite is_exhausted_increment by assumption;
      (destruct (Z.leb_spec (Requests.total r) 0);
       [reflexivity | simpl in Hb; lia]).
  - destruct fuel as [|fuel]; [lia|].
    assert (H0 := Hretried 0%nat ltac:(lia)). rewrite Nat.add_0_r in H0.
    destruct (urlopen_retries attempts fuel n r slept Hu ltac:(lia) H0)
      as (f & seconds & ->).
    destruct (IH fuel (S n) (Requests.increment r f) (slept ++ [seconds])%list)
      as (waits & E & Hlen).
    + apply uniform_budget_increment; [assumption | lia].
    + rewrite total_increment. lia.
    + lia.
    + intros i Hi. replace (S n + i)%nat with (n + S i)%nat by lia.
      apply Hretried. lia.
    + replace (S n + b)%nat with (n + S b)%nat by lia. assumption.
    + exists (seconds :: waits). split.
      * rewrite E. replace (S n + b)%nat with (n + S b)%nat by lia.
        now rewrite <- app_assoc.
      * simpl. now rewrite Hlen.
Qed.

(** ** The retrying fetch: the session the script builds *)

Lemma configured_retry_uniform (retries : nat) (backoff_factor : Q) :
  uniform_budget (configured_retry retries backoff_factor).
Proof. unfold uniform_budget, configured_retry. simpl. repeat split; lia. Qed.

Lemma get_adapter_retry_session (retries : nat) (backoff_factor : Q)
    (url : string) :
  http_or_https url ->
  Requests.get_adapter (requests_retry_session retries backoff_factor) url
  = Ok (Requests.mk_HTTPAdapter (configured_retry retries backoff_factor)).
Proof.
  intros [rest [-> | ->]];
    unfold Requests.get_adapter, requests_retry_session; simpl;
    destruct (Requests.lower rest); reflexivity.
Qed.

Lemma get_unfold (retries : nat) (backoff_factor : Q)
    (prepare_url : string -> result string) (net : Requests.network)
    (url prepared : string) :
  prepare_url url = Ok prepared -> http_or_https prepared ->
  Requests.get prepare_url (requests_retry_session retries backoff_factor)
    net url
  = Requests.urlopen retries (net prepared) 0
      (configured_retry retries backoff_factor) [].
Proof.
  intros Hprepared Hurl. unfold Requests.get.
  rewrite Hprepared, get_adapter_retry_session by assumption.
  unfold Requests.send. simpl Requests.max_retries.
  simpl Requests.total. now rewrite Nat2Z.id.
Qed.

(** Discharges the side conditions of the lemmas on [urlopen] for the
    budget the script configures. *)
Ltac budget :=
  first
    [ apply configured_retry_uniform
    | unfold default_retries, configured_retry; simpl; lia
    | simpl; assumption
    | intros; lia ].

(** C5: the fetch of a dataset access does not raise at once on every
    response of a status 4xx or 5xx.  For a URL that requests prepares
    to an http or https URL, a first response of status 413, 429 or 503
    that carries a Retry-After header of [s] > 0 seconds takes one from
    the retry budget: the fetch waits [s] seconds and sends the request
    again, and what it returns or raises is decided by the response
    that follows (one that is not a redirect and is not sent again in
    its turn), after 2 attempts. *)
Theorem fetch_retries_throttled_response
    (prepare_url : string -> result string) (net : Requests.network)
    (url prepared : string) (resp next : Requests.response) (s : Q) :
  prepare_url url = Ok prepared -> http_or_https prepared ->
  net prepared 0%nat = Requests.Responded resp ->
  In (Requests.status_code resp) [413; 429; 503]%nat ->
  Requests.retry_after resp = Some (Requests.Seconds s) -> (0 < s)%Q ->
  net prepared 1%nat = Requests.Responded next ->
  throttled next = false -> Requests.is_redirect next = false ->
  fetch prepare_url net url
  = (_ <- Requests.raise_for_status next ;; Ok next, 2%nat) /\
  fetch_waits prepare_url net url = [s].
Proof.
  intros Hprepared Hurl Hresp Hstatus Hafter Hs Hnext Hfinal _.
  assert (Hthrottled : throttled resp = true).
  { unfold throttled, Requests.has_retry_after. rewrite Hafter.
    simpl in Hstatus. destruct Hstatus as [<- | [<- | [<- | []]]];
      reflexivity. }
  assert (Hsleep : forall r, Requests.sleep r (Some resp) = Ok s).
  { intros r. unfold Requests.sleep. rewrite Hafter.
    destruct (Qle_bool s 0) eqn:E; [|reflexivity].
    apply Qle_bool_iff in E. exfalso. apply (Qlt_not_le _ _ Hs E). }
  assert (Hget : fetch_get prepare_url net url = (Ok next, 2%nat, [s])).
  { unfold fetch_get.
    rewrite (get_unfold _ _ _ _ _ prepared) by assumption.
    unfold default_retries. cbn [Requests.urlopen].
    rewrite Hresp, is_retry_throttled, Hthrottled. cbn [andb negb].
    replace (Requests.total _ =? 0) with false by reflexivity.
    cbn [negb].
    replace (Requests.is_exhausted _) with false by reflexivity.
    rewrite Hsleep, Hnext, is_retry_throttled, Hfinal, andb_false_r.
    reflexivity. }
  unfold fetch, fetch_waits. now rewrite Hget.
Qed.

Lemma fetch_retries_throttled_response_witness :
  fetch sent_as_given throttling_network "https://example.org/galaxy.jpg"
  = (Ok ok_response, 2%nat) /\
  fetch_waits sent_as_given throttling_network
    "https://example.org/galaxy.jpg"
  = [1%Q].
Proof.
  apply (fetch_retries_throttled_response sent_as_given throttling_network
           "https://example.org/galaxy.jpg" "https://example.org/galaxy.jpg"
           throttled_response ok_response 1).
  - reflexivity.
  - exists "example.org/galaxy.jpg". right. reflexivity.
  - reflexivity.
  - simpl. auto.
  - reflexivity.
  - reflexivity.
  - reflexivity.
  - reflexivity.
  - reflexivity.
Defined.

(** ** The dataset access *)

(** C7: for every fetched response that declares a content type, the
    dataset access decodes by a two-way dispatch: the content type
    'image/png' exactly is decoded by Image.open on the stream handle,
    and every other content type is taken for JPEG and decoded by
    decode_jpeg over the bytes read from the stream. *)
Theorem decode_two_way_dispatch
    (image pixels : Type)
    (Image_open : Requests.stream -> result image)
    (decode_jpeg : list Byte.byte -> result pixels)
    (Image_fromarray : pixels -> result image)
    (prepare_url : string -> result string)
    (net : Requests.network) (url : string)
    (response : Requests.response) (attempts : nat) (mime : string) :
  fetch prepare_url net url = (Ok response, attempts) ->
  Requests.content_type response = Some mime ->
  (mime = "image/png" ->
   load_image image pixels Image_open decode_jpeg Image_fromarray
     prepare_url net url
   = Image_open (Requests.raw response)) /\
  (mime <> "image/png" ->
   load_image image pixels Image_open decode_jpeg Image_fromarray
     prepare_url net url
   = (arr <- decode_jpeg (Requests.raw_read (Requests.raw response)) ;;
      Image_fromarray arr)).
Proof.
  intros Hfetch Hmime. unfold load_image, decode, headers_content_type.
  rewrite Hfetch. simpl. rewrite Hmime. simpl. split; intros H.
  - subst mime. reflexivity.
  - apply String.eqb_neq in H. now rewrite H.
Qed.

Lemma decode_two_way_dispatch_witness :
  load_image decoded (list Byte.byte)
    (fun s => Ok (Png (Requests.pending s))) (fun b => Ok b)
    (fun b => Ok (Jpeg b)) sent_as_given (serving png_response)
    "https://example.org/a"
  = Ok (Png [Byte.x89; Byte.x50]) /\
  load_image decoded (list Byte.byte)
    (fun s => Ok (Png (Requests.pending s))) (fun b => Ok b)
    (fun b => Ok (Jpeg b)) sent_as_given (serving jpeg_response)
    "https://example.org/a"
  = Ok (Jpeg [Byte.xff; Byte.xd8]).
Proof.
  split.
  - refine (proj1 (decode_two_way_dispatch decoded (list Byte.byte) _ _ _
              sent_as_given (serving png_response) "https://example.org/a"
              png_response 1 "image/png" _ _) _); reflexivity.
  - refine (proj2 (decode_two_way_dispatch decoded (list Byte.byte) _ _ _
              sent_as_given (serving jpeg_response) "https://example.org/a"
              jpeg_response 1 "image/jpeg" _ _) _);
      [reflexivity | reflexivity | discriminate].
Defined.

(** C8: for every index of a catalog row, if the fetch or the decode of
    the row's image_url raises an exception, the dataset access logs a
    critical message naming that URL and raises that same exception: no
    sample is returned in its place. *)
Theorem getitem_logs_and_reraises
    (image pixels : Type)
    (Image_open : Requests.stream -> result image)
    (decode_jpeg : list Byte.byte -> result pixels)
    (Image_fromarray : pixels -> result image)
    (transform : option (image -> result image))
    (target_transform : option (label -> result label))
    (prepare_url : string -> result string)
    (net : Requests.network)
    (c : catalog) (idx : Z) (galaxy : catalog_row) (e : exception) :
  iloc c idx = Ok galaxy ->
  load_image image pixels Image_open decode_jpeg Image_fromarray prepare_url net
    (image_url galaxy) = Raise e ->
  getitem image pixels Image_open decode_jpeg Image_fromarray
    transform target_transform prepare_url net c idx
  = ([(DEBUG, Downloading_url (image_url galaxy));
      (CRITICAL, Cannot_load (image_url galaxy))],
     Raise e).
Proof.
  intros Hrow Hload. unfold getitem. now rewrite Hrow, Hload.
Qed.

Lemma getitem_logs_and_reraises_witness :
  getitem decoded (list Byte.byte)
    (fun s => Ok (Png (Requests.pending s))) (fun b => Ok b)
    (fun b => Ok (Jpeg b)) None None sent_as_given (serving error_response)
    one_row_catalog 0
  = ([(DEBUG, Downloading_url "https://example.org/1.jpg");
      (CRITICAL, Cannot_load "https://example.org/1.jpg")],
     Raise (HTTPError 500)).
Proof.
  apply (getitem_logs_and_reraises decoded (list Byte.byte) _ _ _ None None
           sent_as_given (serving error_response) one_row_catalog 0
           (mk_catalog_row "subject-1" "https://example.org/1.jpg")
           (HTTPError 500)); reflexivity.
Defined.

(** ** Steps of a run that only log *)

Lemma quietly_ret {A : Type} (a : A) : quietly (ret a) (Ok a).
Proof. intros w. exists w. auto. Qed.

Lemma quietly_lift {A : Type} (r : result A) : quietly (lift r) r.
Proof. intros w. exists w. auto. Qed.

Lemma quietly_logging (l : level) (m : message) :
  quietly (logging l m) (Ok tt).
Proof. intros w. eexists. unfold logging. split; [reflexivity | auto]. Qed.

Lemma quietly_bind {A B : Type} (m : M A) (k : A -> M B)
    (r : result A) (f : A -> result B) :
  quietly m r -> (forall a, r = Ok a -> quietly (k a) (f a)) ->
  quietly (bindM m k) (bind r f).
Proof.
  intros Hm Hk w. destruct (Hm w) as (w1 & E1 & P1 & W1).
  unfold bindM. rewrite E1. destruct r as [a|e]; simpl.
  - destruct (Hk a eq_refl w1) as (w2 & E2 & P2 & W2).
    exists w2. rewrite E2. repeat split; congruence.
  - exists w1. auto.
Qed.

Lemma quietly_mapM {A B : Type} (f : A -> M B) (g : A -> result B)
    (l : list A) :
  (forall x, In x l -> quietly (f x) (g x)) ->
  quietly (mapM f l) (traverse g l).
Proof.
  induction l as [|x l IH]; intros Hf; simpl.
  - apply quietly_ret.
  - apply quietly_bind; [apply Hf; now left|]. intros y _.
    apply quietly_bind; [apply IH; intros; apply Hf; now right|].
    intros ys _. apply quietly_ret.
Qed.

(** ** Lists of results *)

Lemma traverse_app {A B : Type} (f : A -> result B) (l1 l2 : list A) :
  traverse f (l1 ++ l2)
  = (ys1 <- traverse f l1 ;; ys2 <- traverse f l2 ;; Ok (ys1 ++ ys2)%list).
Proof.
  induction l1 as [|x l1 IH]; simpl.
  - destruct (traverse f l2); reflexivity.
  - destruct (f x) as [y|e]; simpl; [|reflexivity].
    rewrite IH. destruct (traverse f l1) as [ys1|e]; simpl; [|reflexivity].
    destruct (traverse f l2); reflexivity.
Qed.

Lemma traverse_all_ok {A B : Type} (f : A -> result B) (l : list A) :
  (forall x, In x l -> exists y, f x = Ok y) ->
  exists ys, traverse f l = Ok ys.
Proof.
  induction l as [|x l IH]; intros H; simpl.
  - now exists [].
  - destruct (H x) as [y Hy]; [now left|]. rewrite Hy.
    destruct IH as [ys Hys]; [intros; apply H; now right|].
    rewrite Hys. now exists (y :: ys).
Qed.

Lemma traverse_length {A B : Type} (f : A -> result B) (l : list A) :
  forall ys, traverse f l = Ok ys -> length ys = length l.
Proof.
  induction l as [|x l IH]; simpl; intros ys H.
  - now inversion H.
  - destruct (f x) as [y|e]; simpl in H; [|discriminate].
    destruct (traverse f l) as [ys'|e]; simpl in H; [|discriminate].
    inversion H; subst. simpl. f_equal. now apply IH.
Qed.

Lemma traverse_nth_error {A B : Type} (f : A -> result B) (l : list A) :
  forall ys i x, traverse f l = Ok ys -> nth_error l i = Some x ->
    exists y, f x = Ok y /\ nth_error ys i = Some y.
Proof.
  induction l as [|x0 l IH]; simpl; intros ys i x H Hi.
  - destruct i; discriminate.
  - destruct (f x0) as [y0|e] eqn:E0; simpl in H; [|discriminate].
    destruct (traverse f l) as [ys'|e]; simpl in H; [|discriminate].
    inversion H; subst. destruct i as [|i]; simpl in *.
    + inversion Hi; subst. eauto.
    + eapply IH; eauto.
Qed.

Lemma traverse_const {A B : Type} (r : result B) (y : B) (l : list A) :
  r = Ok y -> traverse (fun _ => r) l = Ok (repeat y (length l)).
Proof.
  intros ->. induction l as [|x l IH]; simpl; [reflexivity|].
  now rewrite IH.
Qed.

(** The batches of a pass, put end to end, are the samples in order:
    if the samples of [concat batches] load as [samples], the per-batch
    tensors concatenate to the model's rows for [samples]. *)
Lemma traverse_batches {A S R : Type} (get : A -> result S) (h : S -> R)
    (batches : list (list A)) :
  forall samples,
    traverse get (List.concat batches) = Ok samples ->
    exists ts,
      traverse (fun batch => s <- traverse get batch ;; Ok (map h s)) batches
      = Ok ts /\
      List.concat ts = map h samples /\
      length ts = length batches.
Proof.
  induction batches as [|b bs IH]; simpl; intros samples H.
  - inversion H; subst. now exists [].
  - rewrite traverse_app in H.
    destruct (traverse get b) as [s1|e]; simpl in H; [|discriminate].
    destruct (traverse get (List.concat bs)) as [s2|e] eqn:E2;
      simpl in H; [|discriminate].
    inversion H; subst. destruct (IH s2 eq_refl) as (ts & Hts & Hc & Hl).
    simpl. rewrite Hts. exists (map h s1 :: ts). simpl.
    repeat split; [now rewrite Hc, map_app | now rewrite Hl].
Qed.

(** And back: batch tensors that were all computed come from samples
    that all loaded. *)
Lemma traverse_batches_inv {A S R : Type} (get : A -> result S) (h : S -> R)
    (batches : list (list A)) :
  forall ts,
    traverse (fun batch => s <- traverse get batch ;; Ok (map h s)) batches
    = Ok ts ->
    exists samples,
      traverse get (List.concat batches) = Ok samples /\
      List.concat ts = map h samples.
Proof.
  induction batches as [|b bs IH]; simpl; intros ts H.
  - inversion H; subst. now exists [].
  - destruct (traverse get b) as [s1|e] eqn:Eb; simpl in H; [|discriminate].
    destruct (traverse _ bs) as [ts'|e] eqn:E; simpl in H; [|discriminate].
    inversion H; subst. destruct (IH ts' eq_refl) as (s2 & Hs2 & Hc).
    exists (s1 ++ s2)%list. rewrite traverse_app, Eb, Hs2. simpl.
    split; [reflexivity|]. now rewrite Hc, map_app.
Qed.

(** ** Batching keeps the order *)

Lemma concat_batched {A : Type} (batch_size : nat) (l : list A) :
  forall acc, List.concat (batched batch_size acc l) = (rev acc ++ l)%list.
Proof.
  induction l as [|x l IH]; intros acc.
  - simpl. destruct acc; simpl; now rewrite ?app_nil_r.
  - cbn [batched]. destruct (S (length acc) =? batch_size)%nat.
    + cbn [List.concat]. rewrite IH. simpl. now rewrite <- app_assoc.
    + rewrite IH. simpl. now rewrite <- app_assoc.
Qed.

Lemma batched_not_nil {A : Type} (batch_size : nat) (l : list A) :
  forall acc, acc <> [] \/ l <> [] -> batched batch_size acc l <> [].
Proof.
  induction l as [|x l IH]; intros acc H.
  - simpl. destruct acc; [destruct H; contradiction | discriminate].
  - cbn [batched]. destruct (S (length acc) =? batch_size)%nat;
      [discriminate|].
    apply IH. left. discriminate.
Qed.

(** ** Stacking copies of one tensor *)

Lemma map_nth_seq {A B : Type} (f : A -> B) (d : A) (l : list A) :
  map (fun i => f (nth i l d)) (seq 0 (length l)) = map f l.
Proof.
  rewrite <- (map_map (fun i => nth i l d) f).
  rewrite <- (firstn_skipn_seq d l 0 (length l)) by lia.
  simpl. now rewrite firstn_all.
Qed.

Lemma map_repeat {A B : Type} (f : A -> B) (x : A) (n : nat) :
  map f (repeat x n) = repeat (f x) n.
Proof. induction n; simpl; [reflexivity | now rewrite IHn]. Qed.

Lemma stack_dim2_repeat (t : tensor2) (n : nat) :
  (0 < n)%nat ->
  Torch.stack_dim2 (repeat t n)
  = Ok (map (map (fun x => repeat x n)) t).
Proof.
  intros Hn. destruct n as [|n]; [lia|].
  unfold Torch.stack_dim2. change (repeat t (S n)) with (t :: repeat t n) at 1.
  cbv iota beta.
  assert (Hall : forallb
            (fun t' => if list_eq_dec Nat.eq_dec (Torch.shape t') (Torch.shape t)
                       then true else false) (repeat t (S n)) = true).
  { apply forallb_forall. intros t' Hin. apply repeat_spec in Hin. subst.
    destruct (list_eq_dec Nat.eq_dec (Torch.shape t) (Torch.shape t));
      [reflexivity | contradiction]. }
  rewrite Hall. f_equal.
  rewrite <- (map_nth_seq (map (fun x => repeat x (S n))) [] t).
  apply map_ext. intros i.
  rewrite <- (map_nth_seq (fun x => repeat x (S n)) 0%Q (nth i t [])).
  apply map_ext. intros j. now rewrite map_repeat.
Qed.

(** ** The run of [predict] *)

Lemma endswith_csv_not_hdf5 (s : string) :
  endswith s ".csv" = true -> endswith s ".hdf5" = false.
Proof.
  induction s as [|c s IH]; [discriminate|].
  cbn [endswith]. destruct (String.eqb (String c s) ".csv") eqn:E.
  - apply String.eqb_eq in E. inversion E; subst. reflexivity.
  - intros H. destruct (String.eqb (String c s) ".hdf5") eqn:E5.
    + apply String.eqb_eq in E5. inversion E5; subst. discriminate H.
    + now apply IH.
Qed.

(** The dispatch of lines 150-156 calls one writer, the selected one,
    with the arguments it was given, and warns for a suffix it does not
    know. *)
Lemma save_writes_once
    (predictions : tensor3) (image_id_strs label_cols : list string)
    (save_loc : string) (w : world) :
  exists w',
    save predictions image_id_strs label_cols save_loc w = (Ok tt, w') /\
    passes w' = passes w /\
    written w'
    = (written w
       ++ [mk_write_call (selected_writer save_loc) predictions
             image_id_strs label_cols save_loc])%list /\
    log w'
    = (log w
       ++ (if endswith save_loc ".csv" || endswith save_loc ".hdf5"
           then []
           else [(WARNING, Save_format_not_recognised save_loc)]))%list.
Proof.
  unfold save, selected_writer.
  destruct (endswith save_loc ".csv");
    [|destruct (endswith save_loc ".hdf5")];
    eexists; (split; [reflexivity|]); simpl;
    rewrite ?app_nil_r; auto.
Qed.

Section PredictFacts.

Variable image : Type.
Variable pixels : Type.
Variable Image_open : Requests.stream -> result image.
Variable decode_jpeg : list Byte.byte -> result pixels.
Variable Image_fromarray : pixels -> result image.
Variable transform : option (image -> result image).
Variable prepare_url : string -> result string.
Variable net : Requests.network.

Variable c : catalog.
Variable model : LightningModule image.
Variable n_samples : Z.
Variable label_cols : list string.
Variable save_loc : string.
Variable batch_size : nat.

Local Abbreviation sample :=
(sample image pixels Image_open decode_jpeg Image_fromarray transform
   prepare_url net c).
Local Abbreviation pass_tensors :=
(pass_tensors image pixels Image_open decode_jpeg Image_fromarray transform
   prepare_url net c model batch_size).
Local Abbreviation predicted :=
(predicted image pixels Image_open decode_jpeg Image_fromarray transform
   prepare_url net c model n_samples batch_size).

Lemma quietly_dataset_getitem (idx : nat) :
  quietly (dataset_getitem image pixels Image_open decode_jpeg
             Image_fromarray transform prepare_url net c idx)
          (sample idx).
Proof.
  intros w. unfold dataset_getitem, sample.
  destruct (getitem image pixels Image_open decode_jpeg Image_fromarray
              transform None prepare_url net c (Z.of_nat idx)) as [msgs r].
  eexists. split; [reflexivity|]. auto.
Qed.

(** [trainer.predict] makes one pass, whatever comes of it. *)
Lemma trainer_predict_run (w : world) :
  exists w',
    trainer_predict image pixels Image_open decode_jpeg Image_fromarray
      transform prepare_url net model c batch_size w
    = (pass_tensors (passes w), w') /\
    passes w' = S (passes w) /\ written w' = written w.
Proof.
  unfold trainer_predict, pass_tensors.
  destruct (predict_dataloader c batch_size) as [batches|e]; simpl.
  - match goal with
    | |- context [mapM ?F batches ?w1] =>
        destruct (quietly_mapM F
                    (fun batch =>
                       samples <- traverse sample batch ;;
                       Ok (map (fun s => model (passes w) (fst s)) samples))
                    batches) with (w := w1) as (w' & E & P & W)
    end.
    + intros batch _. apply quietly_bind.
      * apply quietly_mapM. intros idx _. apply quietly_dataset_getitem.
      * intros samples _. apply quietly_ret.
    + exists w'. rewrite E. simpl in *. auto.
  - eexists. split; [reflexivity|]. auto.
Qed.

(** A run of [predict] makes exactly one pass of the model, and calls
    a writer once if it gets to a tensor, and not at all if not. *)
Lemma predict_run (w : world) :
  exists w',
    predict image pixels Image_open decode_jpeg Image_fromarray
      transform prepare_url net c model n_samples label_cols save_loc
      batch_size w
    = (_ <- predicted (passes w) ;; Ok tt, w') /\
    passes w' = S (passes w) /\
    written w'
    = (written w
       ++ match predicted (passes w) with
          | Ok p => [mk_write_call (selected_writer save_loc) p
                       (map subject_id c) label_cols save_loc]
          | Raise _ => []
          end)%list.
Proof.
  unfold predict, predicted.
  cbv [bindM logging lift].
  match goal with
  | |- context [trainer_predict _ _ _ _ _ _ _ _ _ _ _ ?w1] =>
      destruct (trainer_predict_run w1) as (w2 & E & P & W)
  end.
  rewrite E. simpl passes in *. simpl written in *.
  destruct (pass_tensors (passes w)) as [predictions|e]; simpl bind.
  2:{ eexists. split; [reflexivity|]. rewrite app_nil_r. auto. }
  destruct (traverse (fun _ => Torch.concat predictions) (range n_samples))
    as [repeated|e]; simpl bind.
  2:{ eexists. split; [reflexivity|]. simpl. rewrite app_nil_r. auto. }
  destruct (Torch.stack_dim2 repeated) as [p|e]; simpl bind.
  2:{ eexists. split; [reflexivity|]. simpl. rewrite app_nil_r. auto. }
  match goal with
  | |- context [save ?p ?i ?l ?s ?w3] =>
      destruct (save_writes_once p i l s w3) as (w4 & E4 & P4 & W4 & _)
  end.
  rewrite E4. eexists. split; [reflexivity|]. simpl.
  rewrite P4, W4. simpl. rewrite W. auto.
Qed.

(** When every row of the catalog loads, the tensor handed to the
    writer holds, row by row in the order of the catalog, the model's
    output for the sample of that index, repeated along the last
    axis. *)
Lemma predicted_in_order (k : nat) :
  (0 < batch_size)%nat -> 0 < n_samples -> c <> [] ->
  (forall i, (i < length c)%nat -> exists s, sample i = Ok s) ->
  exists samples,
    traverse sample (seq 0 (length c)) = Ok samples /\
    predicted k
    = Ok (map (map (fun x => repeat x (Z.to_nat n_samples)))
              (map (fun s => model k (fst s)) samples)).
Proof.
  intros Hb Hn Hc Hall.
  destruct (traverse_all_ok sample (seq 0 (length c))) as [samples Hs].
  { intros i Hi. apply in_seq in Hi. apply Hall. lia. }
  exists samples. split; [assumption|].
  unfold predicted, pass_tensors, predict_dataloader.
  destruct (Nat.eqb_spec batch_size 0) as [E|_]; [lia|]. simpl bind.
  destruct (traverse_batches sample (fun s => model k (fst s))
              (batched batch_size [] (seq 0 (length c))) samples)
    as (ts & Hts & Hcat & Hlen).
  { now rewrite concat_batched. }
  rewrite Hts. simpl bind.
  assert (Hts_nil : ts <> []).
  { intros ->. simpl in Hlen. symmetry in Hlen.
    apply length_zero_iff_nil in Hlen. revert Hlen.
    apply batched_not_nil. right.
    destruct c; [contradiction | discriminate]. }
  assert (Hconcat : Torch.concat ts = Ok (List.concat ts)).
  { destruct ts; [contradiction | reflexivity]. }
  rewrite (traverse_const _ _ (range n_samples) Hconcat). simpl bind.
  unfold range. rewrite length_seq, Hcat.
  apply stack_dim2_repeat. lia.
Qed.

(** And back: a tensor is handed to the writer only when every row of
    the catalog loaded, and it is that same tensor. *)
Lemma predicted_inv (k : nat) (p : tensor3) :
  predicted k = Ok p ->
  exists samples,
    traverse sample (seq 0 (length c)) = Ok samples /\
    p = map (map (fun x => repeat x (Z.to_nat n_samples)))
            (map (fun s => model k (fst s)) samples).
Proof.
  unfold predicted, pass_tensors, predict_dataloader.
  destruct (Nat.eqb_spec batch_size 0) as [E|_]; [discriminate|]. simpl bind.
  destruct (traverse _ (batched batch_size [] (seq 0 (length c))))
    as [ts|e] eqn:Ets; simpl bind; [|discriminate].
  apply traverse_batches_inv in Ets. destruct Ets as (samples & Hs & Hcat).
  rewrite concat_batched in Hs. simpl in Hs.
  unfold range. destruct (Z.to_nat n_samples) as [|n] eqn:En.
  - simpl. discriminate.
  - destruct (Torch.concat ts) as [t|e] eqn:Ht.
    + rewrite (traverse_const (Ok t) t _ eq_refl), length_seq.
      cbn [bind]. rewrite stack_dim2_repeat by lia.
      intros H. inversion H; subst p. exists samples. split; [assumption|].
      assert (Ht' : t = List.concat ts)
        by (destruct ts; [discriminate | now inversion Ht]).
      now rewrite Ht', Hcat.
    + simpl. discriminate.
Qed.

Lemma iloc_of_nat (i : nat) (row : catalog_row) :
  nth_error c i = Some row -> iloc c (Z.of_nat i) = Ok row.
Proof.
  intros H. unfold iloc, Np.list_getitem.
  assert (Hi : (i < length c)%nat) by (apply nth_error_Some; congruence).
  destruct (Z.ltb_spec (Z.of_nat i) 0); [lia|].
  destruct (Z.ltb_spec (Z.of_nat i) 0); [lia|].
  destruct (Z.leb_spec (Z.of_nat (length c)) (Z.of_nat i)); [lia|].
  simpl. now rewrite Nat2Z.id, H.
Qed.

(** C4: in every run of [predict] that writes, the writer is handed
    the subject identifiers in catalog order and a tensor of N rows whose
    row i is the model's output for the dataset sample of index i, the
    sample read from catalog row i, for every i below N, the number of
    rows of the catalog; and the run does write when the catalog is not
    empty, its rows all load, and the batch size and n_samples are
    positive. *)
Theorem predict_preserves_row_order (w : world) :
  (forall w',
     predict image pixels Image_open decode_jpeg Image_fromarray
       transform prepare_url net c model n_samples label_cols save_loc
      batch_size w
     = (Ok tt, w') ->
     exists call,
       written w' = (written w ++ [call])%list /\
       w_image_id_strs call = map subject_id c /\
       length (w_predictions call) = length c /\
       forall i row, nth_error c i = Some row ->
         iloc c (Z.of_nat i) = Ok row /\
         nth_error (w_image_id_strs call) i = Some (subject_id row) /\
         exists s,
           sample i = Ok s /\
           nth_error (w_predictions call) i
           = Some (map (fun x => repeat x (Z.to_nat n_samples))
                       (model (passes w) (fst s)))) /\
  ((0 < batch_size)%nat -> 0 < n_samples -> c <> [] ->
   (forall i, (i < length c)%nat -> exists s, sample i = Ok s) ->
   exists w',
     predict image pixels Image_open decode_jpeg Image_fromarray
       transform prepare_url net c model n_samples label_cols save_loc
      batch_size w
     = (Ok tt, w')).
Proof.
  destruct (predict_run w) as (w1 & E & _ & W). split.
  - intros w' Hrun. rewrite Hrun in E. inversion E as [[Hres Hw]]. subst w1.
    destruct (predicted (passes w)) as [p|e] eqn:Hp; [|discriminate].
    apply predicted_inv in Hp. destruct Hp as (samples & Hs & ->).
    eexists. split; [exact W|]. simpl. split; [reflexivity|]. split.
    + rewrite !length_map. rewrite (traverse_length _ _ _ Hs).
      apply length_seq.
    + intros i row Hrow.
      assert (Hi : (i < length c)%nat) by (apply nth_error_Some; congruence).
      split; [now apply iloc_of_nat|]. split.
      * now rewrite nth_error_map, Hrow.
      * destruct (traverse_nth_error sample _ samples i i Hs)
          as (s & Hsi & Hn').
        { rewrite nth_error_nth' with (d := 0%nat)
            by (rewrite length_seq; lia).
          now rewrite seq_nth by lia. }
        exists s. split; [assumption|].
        now rewrite !nth_error_map, Hn'.
  - intros Hb Hn Hc Hall.
    destruct (predicted_in_order (passes w) Hb Hn Hc Hall)
      as (samples & _ & Hp).
    rewrite Hp in E. exists w1. exact E.
Qed.

(** C9: the dispatch of [predict] on the destination calls the CSV
    writer when it ends in '.csv', the HDF5 writer when it ends in
    '.hdf5', and for any other suffix logs a warning and calls the CSV
    writer, without raising; one writer is called, once, with the
    tensor, the identifiers, the labels and the destination, and a run
    of [predict] that completes has called exactly one writer. *)
Theorem save_dispatch_by_suffix
    (predictions : tensor3) (image_id_strs : list string) (w : world) :
  (exists w' wr,
     save predictions image_id_strs label_cols save_loc w = (Ok tt, w') /\
     written w'
     = (written w
        ++ [mk_write_call wr predictions image_id_strs label_cols
                          save_loc])%list /\
     (endswith save_loc ".csv" = true ->
      wr = predictions_to_csv /\ log w' = log w) /\
     (endswith save_loc ".hdf5" = true ->
      wr = predictions_to_hdf5 /\ log w' = log w) /\
     (endswith save_loc ".csv" = false ->
      endswith save_loc ".hdf5" = false ->
      wr = predictions_to_csv /\
      log w'
      = (log w ++ [(WARNING, Save_format_not_recognised save_loc)])%list)) /\
  (forall w',
     predict image pixels Image_open decode_jpeg Image_fromarray
       transform prepare_url net c model n_samples label_cols save_loc
      batch_size w
     = (Ok tt, w') ->
     exists call,
       written w' = (written w ++ [call])%list /\
       w_writer call = selected_writer save_loc /\
       w_save_loc call = save_loc).
Proof.
  split.
  - destruct (save_writes_once predictions image_id_strs label_cols
                save_loc w) as (w' & E & _ & W & L).
    exists w', (selected_writer save_loc).
    split; [exact E|]. split; [exact W|].
    unfold selected_writer. repeat split.
    + now rewrite H.
    + rewrite L, H. simpl. apply app_nil_r.
    + destruct (endswith save_loc ".csv") eqn:Ecsv;
        [apply endswith_csv_not_hdf5 in Ecsv; congruence | now rewrite H].
    + rewrite L, H. rewrite orb_true_r. apply app_nil_r.
    + now rewrite H, H0.
    + now rewrite L, H, H0.
  - intros w' Hrun. destruct (predict_run w) as (w1 & E & _ & W).
    rewrite Hrun in E. inversion E; subst w1.
    destruct (predicted (passes w)) as [p|e]; [|discriminate].
    eexists. split; [exact W|]. split; reflexivity.
Qed.

End PredictFacts.

(** ** A concrete run *)

Lemma predict_preserves_row_order_witness :
  exists w' call,
    predict decoded (list Byte.byte)
      (fun s => Ok (Png (Requests.pending s))) (fun b => Ok b)
      (fun b => Ok (Jpeg b)) None sent_as_given echo_network
      three_row_catalog size_and_pass_model 2 ["smooth"; "featured"]
      "predictions.hdf5" 2 initial_world
    = (Ok tt, w') /\
    written w' = (written initial_world ++ [call])%list /\
    w_image_id_strs call = ["subject-a"; "subject-b"; "subject-c"] /\
    length (w_predictions call) = 3%nat.
Proof.
  destruct (predict_preserves_row_order decoded (list Byte.byte)
              (fun s => Ok (Png (Requests.pending s))) (fun b => Ok b)
              (fun b => Ok (Jpeg b)) None sent_as_given echo_network
              three_row_catalog size_and_pass_model 2 ["smooth"; "featured"]
              "predictions.hdf5" 2 initial_world)
    as (Horder & Hruns).
  destruct Hruns as (w' & Hrun).
  - lia.
  - lia.
  - discriminate.
  - intros i Hi. destruct i as [|[|[|i]]];
      [eexists; vm_compute; reflexivity ..| simpl in Hi; lia].
  - destruct (Horder w' Hrun) as (call & W & I & L & _).
    exists w', call. auto.
Defined.

Lemma save_dispatch_by_suffix_witness :
  exists w' wr,
    save [[[1%Q]]] ["subject-a"] ["smooth"] "predictions.txt" initial_world
    = (Ok tt, w') /\
    written w'
    = [mk_write_call wr [[[1%Q]]] ["subject-a"] ["smooth"] "predictions.txt"] /\
    wr = predictions_to_csv /\
    log w' = [(WARNING, Save_format_not_recognised "predictions.txt")].
Proof.
  destruct (save_dispatch_by_suffix decoded (list Byte.byte)
              (fun s => Ok (Png (Requests.pending s))) (fun b => Ok b)
              (fun b => Ok (Jpeg b)) None sent_as_given echo_network
              three_row_catalog size_and_pass_model 2 ["smooth"]
              "predictions.txt" 2 [[[1%Q]]] ["subject-a"] initial_world)
    as ((w' & wr & E & W & _ & _ & Hother) & _).
  destruct Hother as [Hwr Hlog]; [reflexivity | reflexivity |].
  exists w', wr. auto.
Defined.

(** C3: [predict] makes one pass of the model, not n_samples: with a
    model whose output differs from pass to pass and n_samples = 2, the
    run makes a single pass and both slices of the last axis of the
    tensor written are the output of that pass (pass number 0), where
    independent passes would give the second slice the output of pass
    number 1. *)
Theorem predict_repeats_one_pass :
  exists w',
    predict decoded (list Byte.byte)
      (fun s => Ok (Png (Requests.pending s))) (fun b => Ok b)
      (fun b => Ok (Jpeg b)) None sent_as_given echo_network
      three_row_catalog size_and_pass_model 2 ["smooth"; "featured"]
      "predictions.csv" 2 initial_world
    = (Ok tt, w') /\
    passes w' = 1%nat /\
    map w_predictions (written w')
    = [[[[25; 25]; [0; 0]]; [[26; 26]; [0; 0]]; [[27; 27]; [0; 0]]]]%Q /\
    forall img,
      size_and_pass_model 1%nat img <> size_and_pass_model 0%nat img.
Proof.
  eexists. split; [vm_compute; reflexivity|].
  split; [reflexivity|]. split; [reflexivity|].
  intros img. unfold size_and_pass_model. intros H. inversion H.
Qed.

(** * Further properties *)

(** ** The statistics functions at the edges of their arguments *)

Lemma list_getitem_short {A : Type} (l : list A) (i : Z) :
  (length l <= Z.to_nat i)%nat -> 0 <= i ->
  Np.list_getitem l i = Raise IndexError.
Proof.
  intros Hl Hi. unfold Np.list_getitem.
  destruct (Z.ltb_spec i 0); [lia|].
  destruct (Z.ltb_spec i 0); [lia|].
  destruct (Z.leb_spec (Z.of_nat (length l)) i); [reflexivity | lia].
Qed.

(** A list of question indices with fewer than two entries makes both
    functions raise IndexError, whatever the array and the answer. *)
Theorem question_indices_too_short
    (predictions : Np.ndarray) (question_indices : list Z) (answer_index : Z) :
  (length question_indices < 2)%nat ->
  predictions_to_expectation_of_answer predictions question_indices
    answer_index = Raise IndexError /\
  predictions_to_variance_of_answer predictions question_indices
    answer_index = Raise IndexError.
Proof.
  intros Hlen.
  unfold predictions_to_expectation_of_answer,
    predictions_to_variance_of_answer.
  destruct question_indices as [|q0 [|q1 rest]]; simpl in Hlen; try lia.
  - rewrite list_getitem_short by (simpl; lia). auto.
  - rewrite list_getitem_0. cbn [bind].
    rewrite list_getitem_short by (simpl; lia). auto.
Qed.

Lemma question_indices_too_short_witness :
  predictions_to_expectation_of_answer test_predictions [0] 0
  = Raise IndexError /\
  predictions_to_variance_of_answer test_predictions [0] 0
  = Raise IndexError.
Proof.
  apply (question_indices_too_short test_predictions [0] 0). simpl. lia.
Defined.

Lemma column_index_out_of_bounds (a : Np.ndarray) (i : Z) :
  Z.of_nat (Np.shape1 a) <= i \/ i < - Z.of_nat (Np.shape1 a) ->
  Np.column_index a i = Raise IndexError.
Proof.
  intros H. unfold Np.column_index.
  destruct (Z.ltb_spec i 0).
  - destruct (Z.ltb_spec (i + Z.of_nat (Np.shape1 a)) 0); [reflexivity|].
    destruct (Z.leb_spec (Z.of_nat (Np.shape1 a))
                (i + Z.of_nat (Np.shape1 a))); [reflexivity | lia].
  - destruct (Z.ltb_spec i 0); [lia|].
    destruct (Z.leb_spec (Z.of_nat (Np.shape1 a)) i); [reflexivity | lia].
Qed.

(** An answer index that is not a column of the array, n_answers or
    more, or below -n_answers, makes both functions raise IndexError,
    whatever the question range. *)
Theorem answer_index_out_of_bounds
    (predictions : Np.ndarray) (q0 q1 : Z) (rest : list Z) (answer_index : Z) :
  Z.of_nat (Np.shape1 predictions) <= answer_index \/
  answer_index < - Z.of_nat (Np.shape1 predictions) ->
  predictions_to_expectation_of_answer predictions (q0 :: q1 :: rest)
    answer_index = Raise IndexError /\
  predictions_to_variance_of_answer predictions (q0 :: q1 :: rest)
    answer_index = Raise IndexError.
Proof.
  intros H.
  unfold predictions_to_expectation_of_answer,
    predictions_to_variance_of_answer, Np.column.
  rewrite list_getitem_0, list_getitem_1. simpl bind.
  rewrite (column_index_out_of_bounds _ _ H). auto.
Qed.

Lemma answer_index_out_of_bounds_witness :
  predictions_to_expectation_of_answer test_predictions [0; 2] 3
  = Raise IndexError /\
  predictions_to_variance_of_answer test_predictions [0; 2] 3
  = Raise IndexError.
Proof.
  apply (answer_index_out_of_bounds test_predictions 0 2 [] 3).
  left. simpl. lia.
Defined.

Lemma column_index_negative (a : Np.ndarray) (k : nat) :
  (1 <= k)%nat -> (k <= Np.shape1 a)%nat ->
  Np.column_index a (- Z.of_nat k)
  = Np.column_index a (Z.of_nat (Np.shape1 a - k)).
Proof.
  intros H1 Hk. unfold Np.column_index.
  destruct (Z.ltb_spec (- Z.of_nat k) 0); [|lia].
  destruct (Z.ltb_spec (Z.of_nat (Np.shape1 a - k)) 0); [lia|].
  replace (- Z.of_nat k + Z.of_nat (Np.shape1 a))
    with (Z.of_nat (Np.shape1 a - k)) by lia.
  reflexivity.
Qed.

(** A negative answer index counts the columns from the last: for
    1 <= k <= n_answers, the answer -k is the answer n_answers - k, for
    both functions. *)
Theorem negative_answer_index_wraps
    (predictions : Np.ndarray) (question_indices : list Z) (k : nat) :
  (1 <= k)%nat -> (k <= Np.shape1 predictions)%nat ->
  predictions_to_expectation_of_answer predictions question_indices
    (- Z.of_nat k)
  = predictions_to_expectation_of_answer predictions question_indices
      (Z.of_nat (Np.shape1 predictions - k)) /\
  predictions_to_variance_of_answer predictions question_indices
    (- Z.of_nat k)
  = predictions_to_variance_of_answer predictions question_indices
      (Z.of_nat (Np.shape1 predictions - k)).
Proof.
  intros H1 Hk.
  unfold predictions_to_expectation_of_answer,
    predictions_to_variance_of_answer, Np.column.
  now rewrite (column_index_negative _ _ H1 Hk).
Qed.

Lemma negative_answer_index_wraps_witness :
  predictions_to_expectation_of_answer test_predictions [0; 2] (-1)
  = predictions_to_expectation_of_answer test_predictions [0; 2] 2 /\
  predictions_to_variance_of_answer test_predictions [0; 2] (-1)
  = predictions_to_variance_of_answer test_predictions [0; 2] 2.
Proof.
  apply (negative_answer_index_wraps test_predictions [0; 2] 1);
    simpl; lia.
Defined.

Lemma adjust_index_clip (n : nat) (j : Z) :
  Z.of_nat n <= j -> Np.adjust_index n j = n.
Proof.
  intros H. unfold Np.adjust_index.
  destruct (Z.ltb_spec j 0); [lia|].
  destruct (Z.ltb_spec j 0); [lia|].
  destruct (Z.ltb_spec (Z.of_nat n) j); [reflexivity|].
  assert (j = Z.of_nat n) by lia. subst. apply Nat2Z.id.
Qed.

Lemma slice_sum_axis1_clip (a : Np.ndarray) (n_galaxies n_answers : nat)
    (start stop : Z) :
  Np.has_shape a n_galaxies n_answers ->
  Z.of_nat n_answers <= stop ->
  Np.slice_sum_axis1 a start stop
  = Np.slice_sum_axis1 a start (Z.of_nat n_answers).
Proof.
  intros (_ & _ & Hrows) Hstop. unfold Np.slice_sum_axis1.
  apply map_ext_in. intros r Hr.
  rewrite Forall_forall in Hrows. specialize (Hrows r Hr).
  unfold Np.slice. rewrite Hrows.
  now rewrite (adjust_index_clip _ stop), (adjust_index_clip _ (Z.of_nat _))
    by lia.
Qed.

(** An end index past the last column does not raise: the sum stops at
    the last column, so both functions return what they return for
    end_index = n_answers - 1. *)
Theorem end_index_is_clipped
    (predictions : Np.ndarray) (n_galaxies n_answers : nat)
    (start_index end_index : Z) (rest : list Z) (answer_index : Z) :
  Np.has_shape predictions n_galaxies n_answers ->
  Z.of_nat n_answers - 1 <= end_index ->
  predictions_to_expectation_of_answer predictions
    (start_index :: end_index :: rest) answer_index
  = predictions_to_expectation_of_answer predictions
      [start_index; Z.of_nat n_answers - 1] answer_index /\
  predictions_to_variance_of_answer predictions
    (start_index :: end_index :: rest) answer_index
  = predictions_to_variance_of_answer predictions
      [start_index; Z.of_nat n_answers - 1] answer_index.
Proof.
  intros Hshape Hend.
  unfold predictions_to_expectation_of_answer,
    predictions_to_variance_of_answer.
  rewrite !list_getitem_0, !list_getitem_1. simpl bind.
  rewrite (slice_sum_axis1_clip predictions n_galaxies n_answers _
             (end_index + 1)) by (assumption || lia).
  rewrite (slice_sum_axis1_clip predictions n_galaxies n_answers _
             (Z.of_nat n_answers - 1 + 1)) by (assumption || lia).
  auto.
Qed.

Lemma end_index_is_clipped_witness :
  predictions_to_expectation_of_answer test_predictions [0; 7] 0
  = predictions_to_expectation_of_answer test_predictions [0; 3 - 1] 0 /\
  predictions_to_variance_of_answer test_predictions [0; 7] 0
  = predictions_to_variance_of_answer test_predictions [0; 3 - 1] 0.
Proof.
  apply (end_index_is_clipped test_predictions 2 3 0 7 [] 0).
  - repeat split; repeat constructor.
  - simpl. lia.
Defined.

Lemma adjust_index_min (n j : nat) :
  Np.adjust_index n (Z.of_nat j) = Nat.min j n.
Proof.
  destruct (Nat.le_gt_cases j n).
  - rewrite adjust_index_of_nat by assumption. lia.
  - rewrite adjust_index_clip by lia. lia.
Qed.

Lemma slice_reversed {A : Type} (row : list A) (s e : nat) :
  (e < s)%nat -> Np.slice row (Z.of_nat s) (Z.of_nat e + 1) = [].
Proof.
  intros Hes. unfold Np.slice.
  replace (Z.of_nat e + 1) with (Z.of_nat (S e)) by lia.
  rewrite !adjust_index_min.
  replace (Nat.min (S e) (length row) - Nat.min s (length row))%nat
    with 0%nat by lia.
  reflexivity.
Qed.

Lemma true_divide_by_zero (x y : Q) :
  (y == 0)%Q -> not_finite (Np.true_divide x y).
Proof.
  intros Hy. unfold Np.true_divide.
  apply Qeq_bool_iff in Hy. rewrite Hy.
  destruct (x ?= 0)%Q; exact I.
Qed.

(** A question range given backwards, end_index below start_index, does
    not raise: the sum is taken over no column, alpha_total is 0, and
    every entry that both functions return is an infinity or a NaN. *)
Theorem reversed_range_gives_no_number
    (predictions : Np.ndarray) (n_galaxies n_answers : nat)
    (start_index end_index answer_index : nat) :
  Np.has_shape predictions n_galaxies n_answers ->
  (end_index < start_index)%nat -> (answer_index < n_answers)%nat ->
  exists expectations variances,
    predictions_to_expectation_of_answer predictions
      [Z.of_nat start_index; Z.of_nat end_index] (Z.of_nat answer_index)
    = Ok expectations /\
    predictions_to_variance_of_answer predictions
      [Z.of_nat start_index; Z.of_nat end_index] (Z.of_nat answer_index)
    = Ok variances /\
    length expectations = n_galaxies /\
    length variances = n_galaxies /\
    Forall not_finite expectations /\
    Forall not_finite variances.
Proof.
  intros Hshape Hes Hans.
  assert (Hsum : Np.slice_sum_axis1 predictions (Z.of_nat start_index)
                   (Z.of_nat end_index + 1)
                 = map (fun _ => 0%Q) (Np.rows predictions)).
  { unfold Np.slice_sum_axis1. apply map_ext. intros r.
    now rewrite slice_reversed. }
  unfold predictions_to_expectation_of_answer,
    predictions_to_variance_of_answer, Np.column.
  rewrite list_getitem_0, list_getitem_1. cbn [bind]. rewrite Hsum.
  rewrite column_index_of_nat by (destruct Hshape as (_ & -> & _); lia).
  cbn [bind]. rewrite !zip_with_map.
  do 2 eexists. split; [reflexivity|]. split; [reflexivity|].
  rewrite !length_map. destruct Hshape as (Hn & _ & _).
  repeat split; try exact Hn.
  - rewrite Forall_map. apply Forall_forall. intros r _.
    now apply true_divide_by_zero.
  - rewrite Forall_map. apply Forall_forall. intros r _.
    now apply true_divide_by_zero.
Qed.

Lemma reversed_range_gives_no_number_witness :
  exists expectations variances,
    predictions_to_expectation_of_answer test_predictions [2; 0] 0
    = Ok expectations /\
    predictions_to_variance_of_answer test_predictions [2; 0] 0
    = Ok variances /\
    length expectations = 2%nat /\
    length variances = 2%nat /\
    Forall not_finite expectations /\
    Forall not_finite variances.
Proof.
  apply (reversed_range_gives_no_number test_predictions 2 3 2 0 0); try lia.
  repeat split; repeat constructor.
Defined.

(** A row whose alpha_total is 0 does not make the functions raise:
    they return, and the entry of that row is an infinity or a NaN in
    the expectations and in the variances. *)
Theorem zero_total_gives_no_number
    (predictions : Np.ndarray) (n_galaxies n_answers : nat)
    (start_index end_index answer_index : nat) (i : nat) (row : list Q) :
  Np.has_shape predictions n_galaxies n_answers ->
  (start_index <= end_index)%nat -> (end_index < n_answers)%nat ->
  (start_index <= answer_index)%nat -> (answer_index <= end_index)%nat ->
  nth_error (Np.rows predictions) i = Some row ->
  (Stated.alpha_total row start_index end_index == 0)%Q ->
  exists expectations variances e v,
    predictions_to_expectation_of_answer predictions
      [Z.of_nat start_index; Z.of_nat end_index] (Z.of_nat answer_index)
    = Ok expectations /\
    predictions_to_variance_of_answer predictions
      [Z.of_nat start_index; Z.of_nat end_index] (Z.of_nat answer_index)
    = Ok variances /\
    nth_error expectations i = Some e /\ not_finite e /\
    nth_error variances i = Some v /\ not_finite v.
Proof.
  intros Hshape Hse He Hsa Hae Hrow Hzero.
  do 4 eexists. split; [|split; [|split; [|split; [|split]]]].
  - apply (expectation_as_map predictions n_galaxies n_answers); auto; lia.
  - apply (variance_as_map predictions n_galaxies n_answers); auto; lia.
  - rewrite nth_error_map, Hrow. reflexivity.
  - now apply true_divide_by_zero.
  - rewrite nth_error_map, Hrow. reflexivity.
  - cbv zeta. apply true_divide_by_zero. rewrite Hzero. reflexivity.
Qed.

Lemma zero_total_gives_no_number_witness :
  exists expectations variances e v,
    predictions_to_expectation_of_answer zero_predictions [0; 1] 0
    = Ok expectations /\
    predictions_to_variance_of_answer zero_predictions [0; 1] 0
    = Ok variances /\
    nth_error expectations 0 = Some e /\ not_finite e /\
    nth_error variances 0 = Some v /\ not_finite v.
Proof.
  apply (zero_total_gives_no_number zero_predictions 1 2 0 1 0 0 [0; 0]%Q);
    try lia; try reflexivity.
  repeat split; repeat constructor.
Defined.

(** ** The retrying fetch: bounds and edges *)




(** For every number of retries given to requests_retry_session, and
    every URL that requests prepares to an http or https URL: a GET
    through the session returns the first response that is not sent
    again, after up to [retries] attempts that are, each a failure of
    the connection or of the read or a 413, 429 or 503 with a Retry-After
    header that can be read; and it gives up with a connection error at
    attempt [retries + 1] when that attempt fails too.  With
    retries = 0 the first failure is final.  The response returned is
    not a redirect. *)
Theorem retry_session_budget
    (retries : nat) (backoff_factor : Q)
    (prepare_url : string -> result string)
    (net : Requests.network) (url prepared : string) :
  prepare_url url = Ok prepared -> http_or_https prepared ->
  (forall k resp,
      (k <= retries)%nat ->
      (forall i, (i < k)%nat -> retried (net prepared i) = true) ->
      net prepared k = Requests.Responded resp ->
      ((k < retries)%nat -> throttled resp = false) ->
      Requests.is_redirect resp = false ->
      fst (Requests.get prepare_url
             (requests_retry_session retries backoff_factor) net url)
      = (Ok resp, S k)) /\
  ((forall i, (i < retries)%nat -> retried (net prepared i) = true) ->
   transient (net prepared retries) = true ->
   fst (Requests.get prepare_url
          (requests_retry_session retries backoff_factor) net url)
   = (Raise ConnectionError, S retries)).
Proof.
  intros Hprepared Hurl.
  rewrite (get_unfold _ _ _ _ _ prepared) by assumption. split.
  - intros k resp Hk Hretried Hresp Hlast _.
    destruct (urlopen_recovers (net prepared) resp k retries 0
                (configured_retry retries backoff_factor) [])
      as (waits & -> & _); simpl; auto.
    + apply configured_retry_uniform.
    + lia.
    + intros H. apply Hlast. lia.
  - intros Hretried Hfail.
    destruct (urlopen_gives_up (net prepared) retries retries 0
                (configured_retry retries backoff_factor) [])
      as (waits & -> & _); simpl; auto.
    apply configured_retry_uniform.
Qed.

Lemma retry_session_budget_witness :
  fst (Requests.get sent_as_given (requests_retry_session 0 (3 # 10))
         flaky_network "http://example.org/galaxy.jpg")
  = (Raise ConnectionError, 1%nat).
Proof.
  destruct (retry_session_budget 0 (3 # 10) sent_as_given flaky_network
              "http://example.org/galaxy.jpg" "http://example.org/galaxy.jpg")
    as (_ & Hgives_up).
  - reflexivity.
  - exists "example.org/galaxy.jpg". left. reflexivity.
  - apply Hgives_up.
    + intros i Hi. lia.
    + reflexivity.
Defined.

(** A first response of status 400 to 599 that is not a 413, 429 or 503
    with a Retry-After header makes the fetch raise at once: HTTPError
    after one attempt, no wait and nothing taken from the budget. *)
Theorem fetch_fails_fast_on_error_status
    (prepare_url : string -> result string)
    (net : Requests.network) (url prepared : string)
    (resp : Requests.response) :
  prepare_url url = Ok prepared -> http_or_https prepared ->
  net prepared 0%nat = Requests.Responded resp ->
  (400 <= Requests.status_code resp < 600)%nat ->
  throttled resp = false ->
  fetch prepare_url net url
  = (Raise (HTTPError (Requests.status_code resp)), 1%nat) /\
  fetch_waits prepare_url net url = [].
Proof.
  intros Hprepared Hurl Hresp Hstatus Hfinal.
  assert (Hget : fetch_get prepare_url net url = (Ok resp, 1%nat, [])).
  { unfold fetch_get.
    rewrite (get_unfold _ _ _ _ _ prepared) by assumption.
    apply urlopen_returns; auto. }
  unfold fetch, fetch_waits. rewrite Hget. split; [|reflexivity].
  simpl. unfold Requests.raise_for_status.
  destruct (Nat.leb_spec 400 (Requests.status_code resp)); [|lia].
  destruct (Nat.ltb_spec (Requests.status_code resp) 600); [|lia].
  reflexivity.
Qed.

Lemma fetch_fails_fast_on_error_status_witness :
  fetch sent_as_given (serving not_found_response)
    "https://example.org/galaxy.jpg"
  = (Raise (HTTPError 404), 1%nat) /\
  fetch_waits sent_as_given (serving not_found_response)
    "https://example.org/galaxy.jpg"
  = [].
Proof.
  apply (fetch_fails_fast_on_error_status sent_as_given
           (serving not_found_response)
           "https://example.org/galaxy.jpg" "https://example.org/galaxy.jpg"
           not_found_response).
  - reflexivity.
  - exists "example.org/galaxy.jpg". right. reflexivity.
  - reflexivity.
  - simpl. lia.
  - reflexivity.
Defined.

Lemma sleep_backoff (r : Requests.Retry) :
  Requests.sleep r None
  = Ok (backoff_wait (Requests.backoff_factor r) (Requests.history r)).
Proof. destruct r. reflexivity. Qed.

(** [k] failures within the budget: the loop comes to attempt [k + 1]
    having waited the backoff time before each retry. *)
Lemma urlopen_after_failures (attempts : nat -> Requests.attempt) :
  forall k fuel n r slept,
    uniform_budget r -> Z.of_nat k <= Requests.total r ->
    (forall i, (i < k)%nat -> transient (attempts (n + i)%nat) = true) ->
    exists r',
      uniform_budget r' /\
      Requests.total r' = Requests.total r - Z.of_nat k /\
      Requests.urlopen (k + fuel) attempts n r slept
      = Requests.urlopen fuel attempts (n + k) r'
          (slept
           ++ map (fun i => backoff_wait (Requests.backoff_factor r)
                              (Requests.history r + S i))
                  (seq 0 k))%list.
Proof.
  induction k as [|k IH]; intros fuel n r slept Hu Hk Hfail.
  - exists r. rewrite Nat.add_0_r, app_nil_r. simpl.
    split; [assumption|]. split; [lia | reflexivity].
  - assert (H0 := Hfail 0%nat ltac:(lia)). rewrite Nat.add_0_r in H0.
    assert (Hleb : (Requests.total r <=? 0) = false)
      by (apply Z.leb_gt; lia).
    assert (Hnext : exists f,
      Requests.urlopen (S k + fuel) attempts n r slept
      = Requests.urlopen (k + fuel) attempts (S n) (Requests.increment r f)
          (slept ++ [backoff_wait (Requests.backoff_factor r)
                       (S (Requests.history r))])%list).
    { cbn [Nat.add Requests.urlopen]. unfold transient in H0.
      destruct (attempts n); try discriminate H0;
        [exists Requests.ConnectError | exists Requests.ReadError];
        rewrite is_exhausted_increment, Hleb, sleep_backoff,
          backoff_factor_increment, history_increment by assumption;
        reflexivity. }
    destruct Hnext as (f & ->).
    destruct (IH fuel (S n) (Requests.increment r f)
                (slept ++ [backoff_wait (Requests.backoff_factor r)
                             (S (Requests.history r))])%list)
      as (r' & Hu' & Ht' & ->).
    + apply uniform_budget_increment; [assumption | lia].
    + rewrite total_increment. lia.
    + intros i Hi. replace (S n + i)%nat with (n + S i)%nat by lia.
      apply Hfail. lia.
    + exists r'. split; [assumption|]. split.
      * rewrite Ht', total_increment. lia.
      * replace (S n + k)%nat with (n + S k)%nat by lia.
        rewrite <- app_assoc. do 2 f_equal.
        rewrite backoff_factor_increment, history_increment.
        change (seq 0 (S k)) with (0%nat :: seq 1 k).
        rewrite <- (seq_shift k 0). cbn [map app]. rewrite map_map. f_equal.
        -- now rewrite Nat.add_1_r.
        -- apply map_ext. intros i. f_equal. lia.
Qed.

(** The waits of the fetch are a backoff that doubles: for a URL that
    requests prepares to an http or https URL, the fetch waits nothing
    before its first retry, twice the backoff factor before the second
    and four times before the third, when the attempts before them
    failed on the connection or on the read; the response that ends
    the fetch is not a redirect. *)
Theorem fetch_backs_off_between_failures
    (prepare_url : string -> result string)
    (net : Requests.network) (url prepared : string) :
  prepare_url url = Ok prepared -> http_or_https prepared ->
  (forall k resp,
      (k <= 3)%nat ->
      (forall i, (i < k)%nat -> transient (net prepared i) = true) ->
      net prepared k = Requests.Responded resp ->
      ((k < 3)%nat -> throttled resp = false) ->
      Requests.is_redirect resp = false ->
      Forall2 Qeq (fetch_waits prepare_url net url)
        (firstn k [0; 2 * default_backoff_factor;
                   4 * default_backoff_factor]%Q)) /\
  ((forall i, (i <= 3)%nat -> transient (net prepared i) = true) ->
   Forall2 Qeq (fetch_waits prepare_url net url)
     [0; 2 * default_backoff_factor; 4 * default_backoff_factor]%Q).
Proof.
  intros Hprepared Hurl. unfold fetch_waits, fetch_get.
  rewrite (get_unfold _ _ _ _ _ prepared) by assumption.
  unfold default_retries. split.
  - intros k resp Hk Hfail Hresp Hlast _.
    replace 3%nat with (k + (3 - k))%nat at 1 by lia.
    destruct (urlopen_after_failures (net prepared) k (3 - k) 0
                (configured_retry 3 default_backoff_factor) [])
      as (r' & Hu' & Ht' & ->);
      [budget | unfold configured_retry; simpl; lia | assumption |].
    rewrite (urlopen_returns (net prepared) resp).
    + destruct k as [|[|[|[|k]]]]; [| | | |lia];
        simpl; repeat constructor; reflexivity.
    + assumption.
    + unfold configured_retry in Ht'. cbn [Requests.total] in Ht'.
      destruct (Nat.eq_dec k 3); [left; lia|].
      right. apply Hlast. lia.
  - intros Hfail.
    change 3%nat with (3 + 0)%nat at 1.
    destruct (urlopen_after_failures (net prepared) 3 0 0
                (configured_retry 3 default_backoff_factor) [])
      as (r' & Hu' & Ht' & ->);
      [budget | unfold configured_retry; simpl; lia
      | intros; apply Hfail; lia |].
    destruct (urlopen_gives_up (net prepared) 0 0 3 r'
                ([] ++ map (fun i => backoff_wait default_backoff_factor
                                       (0 + S i)) (seq 0 3))%list)
      as (waits & E & Hlen).
    + assumption.
    + rewrite Ht'. reflexivity.
    + lia.
    + intros i Hi. lia.
    + apply Hfail. lia.
    + simpl in E |- *. rewrite E.
      destruct waits; [|discriminate Hlen].
      simpl. repeat constructor; reflexivity.
Qed.

Lemma fetch_backs_off_between_failures_witness :
  Forall2 Qeq
    (fetch_waits sent_as_given dead_network "https://example.org/galaxy.jpg")
    [0; 2 * default_backoff_factor; 4 * default_backoff_factor]%Q.
Proof.
  destruct (fetch_backs_off_between_failures sent_as_given dead_network
              "https://example.org/galaxy.jpg"
              "https://example.org/galaxy.jpg") as (_ & Hgives_up).
  - reflexivity.
  - exists "example.org/galaxy.jpg". right. reflexivity.
  - apply Hgives_up. intros i Hi. reflexivity.
Defined.

(** ** The dataset access: what is and what is not logged *)

Section DatasetEdges.

Variable image : Type.
Variable pixels : Type.
Variable Image_open : Requests.stream -> result image.
Variable decode_jpeg : list Byte.byte -> result pixels.
Variable Image_fromarray : pixels -> result image.
Variable transform : option (image -> result image).
Variable target_transform : option (label -> result label).
Variable prepare_url : string -> result string.
Variable net : Requests.network.

Local Abbreviation access :=
(getitem image pixels Image_open decode_jpeg Image_fromarray transform
   target_transform prepare_url net).
Local Abbreviation load :=
(load_image image pixels Image_open decode_jpeg Image_fromarray prepare_url
   net).

Lemma iloc_out_of_range (c : catalog) (idx : Z) :
  Z.of_nat (length c) <= idx \/ idx < - Z.of_nat (length c) ->
  iloc c idx = Raise IndexError.
Proof.
  intros H. unfold iloc, Np.list_getitem.
  destruct (Z.ltb_spec idx 0).
  - destruct (Z.ltb_spec (idx + Z.of_nat (length c)) 0); [reflexivity|].
    destruct (Z.leb_spec (Z.of_nat (length c)) (idx + Z.of_nat (length c)));
      [reflexivity | lia].
  - destruct (Z.ltb_spec idx 0); [lia|].
    destruct (Z.leb_spec (Z.of_nat (length c)) idx); [reflexivity | lia].
Qed.

(** An index that is not a row of the catalog raises IndexError before
    anything is fetched: nothing is logged, not even the failure, since
    the row is looked up outside the try. *)
Theorem getitem_out_of_range_is_not_logged (c : catalog) (idx : Z) :
  Z.of_nat (length c) <= idx \/ idx < - Z.of_nat (length c) ->
  access c idx = ([], Raise IndexError).
Proof.
  intros H. unfold getitem.
  now rewrite (iloc_out_of_range c idx H).
Qed.

(** A negative index counts the rows of the catalog from the last:
    for 1 <= k <= N, the access at -k is the access at N - k. *)
Theorem getitem_negative_index_wraps (c : catalog) (k : nat) :
  (1 <= k)%nat -> (k <= length c)%nat ->
  access c (- Z.of_nat k) = access c (Z.of_nat (length c - k)).
Proof.
  intros H1 Hk.
  assert (E : iloc c (- Z.of_nat k) = iloc c (Z.of_nat (length c - k))).
  { unfold iloc, Np.list_getitem.
    destruct (Z.ltb_spec (- Z.of_nat k) 0); [|lia].
    destruct (Z.ltb_spec (Z.of_nat (length c - k)) 0); [lia|].
    replace (- Z.of_nat k + Z.of_nat (length c))
      with (Z.of_nat (length c - k)) by lia.
    reflexivity. }
  unfold getitem. now rewrite E.
Qed.

(** A response that declares no content type makes the access raise
    KeyError, logged as a failure to load the URL; no decoder is
    called. *)
Theorem getitem_without_content_type
    (c : catalog) (idx : Z) (galaxy : catalog_row)
    (response : Requests.response) (attempts : nat) :
  iloc c idx = Ok galaxy ->
  fetch prepare_url net (image_url galaxy) = (Ok response, attempts) ->
  Requests.content_type response = None ->
  access c idx
  = ([(DEBUG, Downloading_url (image_url galaxy));
      (CRITICAL, Cannot_load (image_url galaxy))],
     Raise KeyError).
Proof.
  intros Hrow Hfetch Hnone.
  unfold getitem.
  rewrite Hrow. unfold load_image, decode, headers_content_type.
  rewrite Hfetch. simpl. now rewrite Hnone.
Qed.

(** An exception of the image transform is raised as it is and is not
    logged as a failure to load: the transform runs after the try. *)
Theorem getitem_transform_failure_is_not_logged
    (c : catalog) (idx : Z) (galaxy : catalog_row)
    (img : image) (f : image -> result image) (e : exception) :
  transform = Some f ->
  iloc c idx = Ok galaxy ->
  load (image_url galaxy) = Ok img ->
  f img = Raise e ->
  access c idx = ([(DEBUG, Downloading_url (image_url galaxy))], Raise e).
Proof.
  intros Ht Hrow Hload Hf.
  unfold getitem.
  rewrite Hrow, Hload, Ht. simpl. now rewrite Hf.
Qed.

(** Every sample the access returns without a label transform has the
    empty label, and its image is the transform of the image decoded
    from the URL of its row; only the download was logged. *)
Theorem getitem_returns_empty_label
    (c : catalog) (idx : Z) (msgs : list log_record)
    (img : image) (lbl : label) :
  target_transform = None ->
  access c idx = (msgs, Ok (img, lbl)) ->
  lbl = [] /\
  exists galaxy img0,
    iloc c idx = Ok galaxy /\
    load (image_url galaxy) = Ok img0 /\
    apply_transform transform img0 = Ok img /\
    msgs = [(DEBUG, Downloading_url (image_url galaxy))].
Proof.
  intros Ht. unfold getitem. rewrite Ht.
  destruct (iloc c idx) as [galaxy|e]; [|intros H; inversion H].
  destruct (load (image_url galaxy))
    as [img0|e] eqn:Hload; [|intros H; inversion H].
  destruct (apply_transform transform img0) as [img'|e] eqn:Htr;
    simpl; intros H; inversion H; subst.
  split; [reflexivity|]. exists galaxy, img0. auto.
Qed.

End DatasetEdges.

Lemma getitem_out_of_range_is_not_logged_witness :
  getitem decoded (list Byte.byte)
    (fun s => Ok (Png (Requests.pending s))) (fun b => Ok b)
    (fun b => Ok (Jpeg b)) None None sent_as_given (serving jpeg_response)
    one_row_catalog 1
  = ([], Raise IndexError).
Proof.
  apply (getitem_out_of_range_is_not_logged decoded (list Byte.byte)).
  left. simpl. lia.
Defined.

Lemma getitem_negative_index_wraps_witness :
  getitem decoded (list Byte.byte)
    (fun s => Ok (Png (Requests.pending s))) (fun b => Ok b)
    (fun b => Ok (Jpeg b)) None None sent_as_given (serving jpeg_response)
    one_row_catalog (-1)
  = getitem decoded (list Byte.byte)
      (fun s => Ok (Png (Requests.pending s))) (fun b => Ok b)
      (fun b => Ok (Jpeg b)) None None sent_as_given (serving jpeg_response)
      one_row_catalog 0.
Proof.
  apply (getitem_negative_index_wraps decoded (list Byte.byte) _ _ _ None
           None sent_as_given (serving jpeg_response) one_row_catalog 1);
    simpl; lia.
Defined.

Lemma getitem_without_content_type_witness :
  getitem decoded (list Byte.byte)
    (fun s => Ok (Png (Requests.pending s))) (fun b => Ok b)
    (fun b => Ok (Jpeg b)) None None sent_as_given (serving untyped_response)
    one_row_catalog 0
  = ([(DEBUG, Downloading_url "https://example.org/1.jpg");
      (CRITICAL, Cannot_load "https://example.org/1.jpg")],
     Raise KeyError).
Proof.
  apply (getitem_without_content_type decoded (list Byte.byte) _ _ _ None
           None sent_as_given (serving untyped_response) one_row_catalog 0
           (mk_catalog_row "subject-1" "https://example.org/1.jpg")
           untyped_response 1); reflexivity.
Defined.

Lemma getitem_transform_failure_is_not_logged_witness :
  getitem decoded (list Byte.byte)
    (fun s => Ok (Png (Requests.pending s))) (fun b => Ok b)
    (fun b => Ok (Jpeg b)) (Some failing_transform) None
    sent_as_given (serving jpeg_response) one_row_catalog 0
  = ([(DEBUG, Downloading_url "https://example.org/1.jpg")],
     Raise ValueError).
Proof.
  apply (getitem_transform_failure_is_not_logged decoded (list Byte.byte)
           _ _ _ (Some failing_transform) None sent_as_given
           (serving jpeg_response)
           one_row_catalog 0
           (mk_catalog_row "subject-1" "https://example.org/1.jpg")
           (Jpeg [Byte.xff; Byte.xd8]) failing_transform ValueError);
    reflexivity.
Defined.

Lemma getitem_returns_empty_label_witness :
  exists img,
    getitem decoded (list Byte.byte)
      (fun s => Ok (Png (Requests.pending s))) (fun b => Ok b)
      (fun b => Ok (Jpeg b)) None None sent_as_given (serving jpeg_response)
      one_row_catalog 0
    = ([(DEBUG, Downloading_url "https://example.org/1.jpg")],
       Ok (img, [])) /\
    ([] : label) = [].
Proof.
  exists (Jpeg [Byte.xff; Byte.xd8]). split; [reflexivity|].
  apply (getitem_returns_empty_label decoded (list Byte.byte)
           (fun s => Ok (Png (Requests.pending s))) (fun b => Ok b)
           (fun b => Ok (Jpeg b)) None None sent_as_given
           (serving jpeg_response)
           one_row_catalog 0
           [(DEBUG, Downloading_url "https://example.org/1.jpg")]
           (Jpeg [Byte.xff; Byte.xd8]) []); reflexivity.
Defined.

(** ** The run of [predict]: passes, failures and what is written *)

Lemma traverse_first_raise {A B : Type} (f : A -> result B) (l : list A) :
  forall i x e,
    nth_error l i = Some x -> f x = Raise e ->
    (forall j y, (j < i)%nat -> nth_error l j = Some y ->
                 exists v, f y = Ok v) ->
    traverse f l = Raise e.
Proof.
  induction l as [|x0 l IH]; intros i x e Hi Hx Hbefore.
  - destruct i; discriminate.
  - destruct i as [|i]; simpl in Hi.
    + inversion Hi; subst. simpl. now rewrite Hx.
    + destruct (Hbefore 0%nat x0) as [v Hv]; [lia | reflexivity |].
      simpl. rewrite Hv. simpl.
      rewrite (IH i x e Hi Hx).
      * reflexivity.
      * intros j y Hj Hy. apply (Hbefore (S j) y); [lia | exact Hy].
Qed.

Lemma traverse_batches_raise {A S R : Type} (get : A -> result S)
    (h : S -> R) (batches : list (list A)) (e : exception) :
  traverse get (List.concat batches) = Raise e ->
  traverse (fun batch => s <- traverse get batch ;; Ok (map h s)) batches
  = Raise e.
Proof.
  induction batches as [|b bs IH]; simpl; intros H.
  - discriminate.
  - rewrite traverse_app in H.
    destruct (traverse get b) as [s1|e1]; simpl in *;
      [|now inversion H].
    destruct (traverse get (List.concat bs)) as [s2|e2]; simpl in H;
      [discriminate|].
    inversion H; subst. now rewrite IH.
Qed.

Section PredictEdges.

Variable image : Type.
Variable pixels : Type.
Variable Image_open : Requests.stream -> result image.
Variable decode_jpeg : list Byte.byte -> result pixels.
Variable Image_fromarray : pixels -> result image.
Variable transform : option (image -> result image).
Variable prepare_url : string -> result string.
Variable net : Requests.network.

Variable c : catalog.
Variable model : LightningModule image.
Variable n_samples : Z.
Variable label_cols : list string.
Variable save_loc : string.
Variable batch_size : nat.

Local Abbreviation run :=
(predict image pixels Image_open decode_jpeg Image_fromarray transform
   prepare_url net
   c model n_samples label_cols save_loc batch_size).
Local Abbreviation row_sample :=
(sample image pixels Image_open decode_jpeg Image_fromarray transform
   prepare_url net c).
Local Abbreviation tensors_of_pass :=
(pass_tensors image pixels Image_open decode_jpeg Image_fromarray transform
   prepare_url net c model batch_size).
Local Abbreviation handed_over :=
(predicted image pixels Image_open decode_jpeg Image_fromarray transform
   prepare_url net c model n_samples batch_size).

(** With n_samples zero or negative, [predict] on a catalog that has
    rows never writes: it makes its one pass of the model and raises,
    with RuntimeError from the stack of no tensor when the pass went
    through. *)
Theorem predict_without_samples_writes_nothing (w : world) :
  (0 < batch_size)%nat -> (0 < length c)%nat ->
  n_samples <= 0 ->
  exists e w',
    run w = (Raise e, w') /\
    written w' = written w /\
    passes w' = S (passes w) /\
    (forall ts, tensors_of_pass (passes w) = Ok ts -> e = RuntimeError).
Proof.
  intros _ _ Hn.
  destruct (predict_run image pixels Image_open decode_jpeg Image_fromarray
              transform prepare_url net c model n_samples label_cols save_loc
              batch_size w) as (w' & E & P & W).
  assert (Hp : handed_over (passes w)
               = (_ <- tensors_of_pass (passes w) ;; Raise RuntimeError)).
  { unfold predicted, range.
    replace (Z.to_nat n_samples) with 0%nat by lia. simpl.
    destruct (tensors_of_pass (passes w)); reflexivity. }
  rewrite Hp in E, W.
  destruct (tensors_of_pass (passes w)) as [ts|e]; simpl in E, W;
    rewrite app_nil_r in W.
  - exists RuntimeError, w'. auto.
  - exists e, w'. repeat split; auto. intros ts H. discriminate.
Qed.

(** One row that does not load aborts the run: when the sample of row i
    raises e and the rows before it load, [predict] raises e and no
    writer is called. *)
Theorem predict_aborts_on_first_failing_row
    (w : world) (i : nat) (e : exception) :
  (0 < batch_size)%nat ->
  (i < length c)%nat ->
  row_sample i = Raise e ->
  (forall j, (j < i)%nat -> exists s, row_sample j = Ok s) ->
  exists w',
    run w = (Raise e, w') /\ written w' = written w.
Proof.
  intros Hb Hi He Hbefore.
  destruct (predict_run image pixels Image_open decode_jpeg Image_fromarray
              transform prepare_url net c model n_samples label_cols save_loc
              batch_size w) as (w' & E & P & W).
  assert (Hall : traverse row_sample (seq 0 (length c)) = Raise e).
  { apply (traverse_first_raise _ _ i i e).
    - rewrite nth_error_nth' with (d := 0%nat) by (rewrite length_seq; lia).
      now rewrite seq_nth by lia.
    - exact He.
    - intros j y Hj Hy.
      assert (Hjc : (j < length (seq 0 (length c)))%nat)
        by (apply nth_error_Some; congruence).
      rewrite length_seq in Hjc.
      rewrite nth_error_nth' with (d := 0%nat) in Hy
        by (rewrite length_seq; lia).
      rewrite seq_nth in Hy by lia. inversion Hy; subst.
      now apply Hbefore. }
  assert (Hp : handed_over (passes w) = Raise e).
  { unfold predicted, pass_tensors, predict_dataloader.
    destruct (Nat.eqb_spec batch_size 0) as [E0|_]; [lia|]. cbn [bind].
    rewrite (traverse_batches_raise row_sample _ _ e).
    - reflexivity.
    - now rewrite concat_batched. }
  rewrite Hp in E, W. simpl in E. rewrite app_nil_r in W.
  exists w'. auto.
Qed.

End PredictEdges.

Lemma predict_without_samples_writes_nothing_witness :
  exists w',
    predict decoded (list Byte.byte)
      (fun s => Ok (Png (Requests.pending s))) (fun b => Ok b)
      (fun b => Ok (Jpeg b)) None sent_as_given echo_network
      three_row_catalog size_and_pass_model 0 ["smooth"; "featured"]
      "predictions.csv" 2 initial_world
    = (Raise RuntimeError, w') /\
    written w' = [].
Proof.
  destruct (predict_without_samples_writes_nothing decoded (list Byte.byte)
              (fun s => Ok (Png (Requests.pending s))) (fun b => Ok b)
              (fun b => Ok (Jpeg b)) None sent_as_given echo_network
              three_row_catalog size_and_pass_model 0 ["smooth"; "featured"]
              "predictions.csv" 2 initial_world)
    as (e & w' & E & W & _ & He).
  - lia.
  - simpl. lia.
  - lia.
  - exists w'. rewrite (He _ eq_refl) in E. auto.
Defined.

Lemma predict_aborts_on_first_failing_row_witness :
  exists w',
    predict decoded (list Byte.byte)
      (fun s => Ok (Png (Requests.pending s))) (fun b => Ok b)
      (fun b => Ok (Jpeg b)) None sent_as_given (serving error_response)
      three_row_catalog size_and_pass_model 2 ["smooth"; "featured"]
      "predictions.csv" 2 initial_world
    = (Raise (HTTPError 500), w') /\
    written w' = written initial_world.
Proof.
  apply (predict_aborts_on_first_failing_row decoded (list Byte.byte)
           (fun s => Ok (Png (Requests.pending s))) (fun b => Ok b)
           (fun b => Ok (Jpeg b)) None sent_as_given (serving error_response)
           three_row_catalog size_and_pass_model 2 ["smooth"; "featured"]
           "predictions.csv" 2 initial_world 0 (HTTPError 500)).
  - lia.
  - simpl. lia.
  - reflexivity.
  - intros j Hj. lia.
Defined.

(** * The job service *)

Lemma compare_digest_ascii (a b : string) :
  Bajor.is_ascii a = true -> Bajor.is_ascii b = true ->
  Bajor.compare_digest a b = Bajor.Returned (String.eqb a b).
Proof.
  intros Ha Hb. unfold Bajor.compare_digest. now rewrite Ha, Hb.
Qed.

(** With credentials and configured values that are ASCII, a POST to
    /jobs/ is answered 201 with the job as it was sent exactly when the
    username and the password both equal the configured ones (each
    'bajor' when its variable is not set); every other request gets 401
    with the detail 'Incorrect username or password' and the header
    WWW-Authenticate: Basic. *)
Theorem post_jobs_authorizes_exact_credentials
    (env : Bajor.environ) (credentials : Bajor.HTTPBasicCredentials)
    (job : Bajor.Job) :
  let expected_username :=
    Bajor.environ_get env "BASIC_AUTH_USERNAME" "bajor" in
  let expected_password :=
    Bajor.environ_get env "BASIC_AUTH_PASSWORD" "bajor" in
  Bajor.is_ascii (Bajor.username credentials) = true ->
  Bajor.is_ascii (Bajor.password credentials) = true ->
  Bajor.is_ascii expected_username = true ->
  Bajor.is_ascii expected_password = true ->
  (Bajor.username credentials = expected_username /\
   Bajor.password credentials = expected_password ->
   Bajor.post_jobs env credentials job = Bajor.Returned (201%nat, job)) /\
  (~ (Bajor.username credentials = expected_username /\
      Bajor.password credentials = expected_password) ->
   Bajor.post_jobs env credentials job
   = Bajor.HTTPException 401 "Incorrect username or password"
       [("WWW-Authenticate", "Basic")]).
Proof.
  intros eu ep Hu Hp Heu Hep.
  unfold Bajor.post_jobs, Bajor.validate_basic_auth.
  fold eu ep. rewrite !compare_digest_ascii by assumption.
  cbn [Bajor.and_then]. split.
  - intros [Hun Hpw]. rewrite Hun, Hpw, !String.eqb_refl. reflexivity.
  - intros Hnot.
    destruct (String.eqb_spec (Bajor.username credentials) eu) as [Hun|Hun];
      destruct (String.eqb_spec (Bajor.password credentials) ep) as [Hpw|Hpw];
      try reflexivity.
    exfalso. apply Hnot. auto.
Qed.

Lemma post_jobs_authorizes_exact_credentials_witness :
  Bajor.post_jobs Bajor.configured_environ
    (Bajor.mk_credentials "operator" "s3cret") Bajor.example_job
  = Bajor.Returned (201%nat, Bajor.example_job) /\
  Bajor.post_jobs Bajor.configured_environ
    (Bajor.mk_credentials "operator" "bajor") Bajor.example_job
  = Bajor.HTTPException 401 "Incorrect username or password"
      [("WWW-Authenticate", "Basic")].
Proof.
  split.
  - apply (post_jobs_authorizes_exact_credentials Bajor.configured_environ
             (Bajor.mk_credentials "operator" "s3cret") Bajor.example_job);
      try reflexivity. split; reflexivity.
  - apply (post_jobs_authorizes_exact_credentials Bajor.configured_environ
             (Bajor.mk_credentials "operator" "bajor") Bajor.example_job);
      try reflexivity. intros [_ H]. discriminate H.
Defined.

(** When neither BASIC_AUTH_USERNAME nor BASIC_AUTH_PASSWORD is set, the
    service accepts the credentials bajor / bajor, and among ASCII
    credentials only those. *)
Theorem post_jobs_default_credentials
    (env : Bajor.environ) (credentials : Bajor.HTTPBasicCredentials)
    (job : Bajor.Job) :
  env "BASIC_AUTH_USERNAME" = None ->
  env "BASIC_AUTH_PASSWORD" = None ->
  Bajor.is_ascii (Bajor.username credentials) = true ->
  Bajor.is_ascii (Bajor.password credentials) = true ->
  (Bajor.post_jobs env credentials job = Bajor.Returned (201%nat, job)
   <-> credentials = Bajor.mk_credentials "bajor" "bajor").
Proof.
  intros Hnu Hnp Hu Hp.
  unfold Bajor.post_jobs, Bajor.validate_basic_auth, Bajor.environ_get.
  rewrite Hnu, Hnp. rewrite !compare_digest_ascii by (assumption || reflexivity).
  cbn [Bajor.and_then]. destruct credentials as [u p]. simpl in *.
  destruct (String.eqb_spec u "bajor") as [Hun|Hun];
    destruct (String.eqb_spec p "bajor") as [Hpw|Hpw]; simpl;
    split; intros H; try discriminate H; try congruence; reflexivity.
Qed.

Lemma post_jobs_default_credentials_witness :
  Bajor.post_jobs Bajor.empty_environ (Bajor.mk_credentials "bajor" "bajor")
    Bajor.example_job
  = Bajor.Returned (201%nat, Bajor.example_job).
Proof.
  apply (post_jobs_default_credentials Bajor.empty_environ
           (Bajor.mk_credentials "bajor" "bajor") Bajor.example_job);
    reflexivity.
Defined.


